(** * The SQS worker handler of cdk-worker-template

    A shallow embedding of [src/lambda/worker/index.ts] (the [handler] and
    [processMessage] functions) together with the fragment of the JavaScript
    runtime these two functions rely on, and the properties of the batch
    message-processing contract proved about them.

    Layout: the runtime fragment ([JS]), the AWS event types ([SQS]), the
    logging collaborator and the effect monad ([Effects]), the handler
    itself ([Worker]), the notions of the contract ([Contract], [Reading]),
    a reference runtime with an executable JSON reader ([Reference]),
    concrete batches ([Examples]), the level of the logger
    ([LoggerConfig]), the load of the module ([Load]) and the local test
    script ([Script]); then the
    properties, first on any runtime, then at concrete batches on the
    reference runtime.

    Not modelled: the 100 ms timer of [processMessage]; what the logging
    library does with its level, once it has accepted it, with its
    redaction list and with its output, which acts on the entries after the
    handler has handed them over; the
    dispatch on the command line at the end of the test script; the
    infrastructure stack, which is a declaration for a library. *)

From Stdlib Require Import Ascii String ZArith.
From stdpp Require Import base option list strings gmap pretty.

Set Warnings "-register-all".
Set Default Proof Using "Type".

(** ** The JavaScript runtime fragment *)

Module JS.

(** The three classes of exception the handler can meet.  The texts of the
    messages of [SyntaxError] and [TypeError] are engine specific and are
    only ever logged, so they are left out. *)
Inductive exception : Type :=
  | SyntaxError
  | TypeError
  | Error (message : string).

(** Completion of an evaluation: a value, or a thrown exception. *)
Inductive result (A : Type) : Type :=
  | Return (a : A)
  | Throw (e : exception).
Arguments Return {A} a.
Arguments Throw {A} e.

Definition is_throw {A} (r : result A) : bool :=
  match r with Return _ => false | Throw _ => true end.

#[global] Instance result_ret : MRet result := @Return.
#[global] Instance result_bind : MBind result := λ A B f r,
  match r with Return a => f a | Throw e => Throw e end.

(** Values that [JSON.parse] produces.  [number] is the runtime's type of
    IEEE doubles; an object is a finite map from property names to
    values. *)
Inductive value {number : Type} : Type :=
  | JNull
  | JBool (b : bool)
  | JNumber (n : number)
  | JString (s : string)
  | JArray (elements : list value)
  | JObject (properties : gmap string value).
Arguments value : clear implicits.

(** What the handler needs from the engine: the doubles with their
    truthiness and their printing, and [JSON.parse] on strings. *)
Class Runtime : Type := {
  number : Type;
  Number_ToBoolean : number → bool;
  Number_toString : number → string;
  JSON_parse_text : string → result (value number);
}.

Section Operations.
Context `{!Runtime}.

(** [typeof v] *)
Definition typeof (v : value number) : string :=
  match v with
  | JNull => "object"
  | JBool _ => "boolean"
  | JNumber _ => "number"
  | JString _ => "string"
  | JArray _ => "object"
  | JObject _ => "object"
  end.

(** [ToBoolean]: the truthiness used by [if (x)] and [!x]. *)
Definition ToBoolean (v : value number) : bool :=
  match v with
  | JNull => false
  | JBool b => b
  | JNumber n => Number_ToBoolean n
  | JString s => negb (String.eqb s "")
  | JArray _ => true
  | JObject _ => true
  end.

(** Truthiness of the result of a property read; [None] is [undefined]. *)
Definition truthy (v : option (value number)) : bool :=
  match v with
  | None => false
  | Some v => ToBoolean v
  end.

(** [v.P], for a property name [P] that is not an array index, not
    [length], and not defined on a built-in prototype; the handler reads
    [Message] and [shouldFail] only.  Reading a property of [null] throws;
    primitives and arrays have no such property; an object yields its own
    property. *)
Definition Get (v : value number) (P : string)
    : result (option (value number)) :=
  match v with
  | JNull => Throw TypeError
  | JBool _ | JNumber _ | JString _ | JArray _ => Return None
  | JObject properties => Return (properties !! P)
  end.

(** [ToString].  An array prints as [Array.prototype.join] does, the
    elements separated by commas and [null] elements empty.  An object
    prints through [Object.prototype.toString]; when it has an own property
    [toString], which is never callable in parsed JSON, neither [toString]
    nor [valueOf] yields a primitive and the conversion throws. *)
Fixpoint ToString (v : value number) : result string :=
  match v with
  | JNull => Return "null"
  | JBool true => Return "true"
  | JBool false => Return "false"
  | JNumber n => Return (Number_toString n)
  | JString s => Return s
  | JArray elements =>
      let element (e : value number) : result string :=
        match e with
        | JNull => Return ""
        | _ => ToString e
        end in
      (fix join (es : list (value number)) : result string :=
         match es with
         | [] => Return ""
         | [e] => element e
         | e :: es' =>
             s ← element e; r ← join es'; Return (s +:+ "," +:+ r)
         end) elements
  | JObject properties =>
      match properties !! "toString" with
      | None => Return "[object Object]"
      | Some _ => Throw TypeError
      end
  end.

(** [JSON.parse(v)]: the argument is converted to a string first. *)
Definition JSON_parse (v : value number) : result (value number) :=
  text ← ToString v; JSON_parse_text text.

End Operations.
End JS.
Export JS.

(** ** The event, context and response types of [aws-lambda] *)

Module SQS.

Record SQSRecordAttributes : Type := {
  ApproximateReceiveCount : string;
  SentTimestamp : string;
  SenderId : string;
  ApproximateFirstReceiveTimestamp : string;
}.

Record SQSMessageAttribute : Type := {
  stringValue : option string;
  binaryValue : option string;
  dataType : string;
}.

Record SQSRecord : Type := {
  messageId : string;
  receiptHandle : string;
  body : string;
  attributes : SQSRecordAttributes;
  messageAttributes : gmap string SQSMessageAttribute;
  md5OfBody : string;
  eventSource : string;
  eventSourceARN : string;
  awsRegion : string;
}.

Record SQSEvent : Type := { Records : list SQSRecord }.

Record SQSBatchItemFailure : Type := { itemIdentifier : string }.

Record SQSBatchResponse : Type := {
  batchItemFailures : list SQSBatchItemFailure;
}.

(** Of the invocation context the handler reads these two fields. *)
Record Context : Type := {
  awsRequestId : string;
  functionName : string;
}.

End SQS.
Export SQS.

(** ** The logging collaborator and the effects of the handler *)

Module Effects.
Section Effects.
Context {number : Type}.

Inductive level : Type := LevelInfo | LevelError.

(** The merging object of a log call, one constructor per call site. *)
Inductive fields : Type :=
  | EventFields (event : SQSEvent)
  | EnvironmentFields (queueUrl topicArn dlqUrl environment logLevel
                        : option string)
  | MessageIdFields (messageId : string)
  | MessageFields (message : value number)
  | ErrorFields (messageId : string) (error : exception).

(** A logger is known by the bindings its entries carry. *)
Record Logger : Type := { bindings : list (string * string) }.

Record entry : Type := {
  entry_level : level;
  entry_bindings : list (string * string);
  entry_fields : fields;
  entry_msg : string;
}.

(** The root logger exported by [utils/logger.ts], as it is once the module
    has been loaded, and [logger.child].  Its construction from the level,
    which the library may refuse, is [Load.load_logger]. *)
Definition logger : Logger := {| bindings := [] |}.

Definition child (l : Logger) (bs : list (string * string)) : Logger :=
  {| bindings := bindings l ++ bs |}.

(** An effectful computation completes normally or throws, and leaves the
    entries it has logged, oldest first.  The trace holds every call made
    to the logger; which of them reach the output is decided by the level
    the logging library was configured with. *)
Definition M (A : Type) : Type := result A * list entry.

#[global] Instance M_ret : MRet M := λ A a, (Return a, []).
#[global] Instance M_bind : MBind M := λ A B f m,
  match m with
  | (Return a, w) => let '(r, w') := f a in (r, w ++ w')
  | (Throw e, w) => (Throw e, w)
  end.

Definition outcome {A} (m : M A) : result A := m.1.
Definition trace {A} (m : M A) : list entry := m.2.

(** A pure evaluation, which may throw, inside an effectful one. *)
Definition lift {A} (r : result A) : M A := (r, []).

Definition throw {A} (e : exception) : M A := (Throw e, []).

(** [try { m } catch (error) { h error }] *)
Definition try_catch {A} (m : M A) (h : exception → M A) : M A :=
  match m with
  | (Return a, w) => (Return a, w)
  | (Throw e, w) => let '(r, w') := h e in (r, w ++ w')
  end.

(** [l.info(fields, msg)] and [l.error(fields, msg)] *)
Definition info (l : Logger) (f : fields) (msg : string) : M unit :=
  (Return (),
   [{| entry_level := LevelInfo; entry_bindings := bindings l;
       entry_fields := f; entry_msg := msg |}]).

Definition error (l : Logger) (f : fields) (msg : string) : M unit :=
  (Return (),
   [{| entry_level := LevelError; entry_bindings := bindings l;
       entry_fields := f; entry_msg := msg |}]).

(** [for (const x of xs) { body }], the loop's mutable variables being the
    state [s]. *)
Fixpoint for_of {A S} (xs : list A) (body : A → S → M S) (s : S) : M S :=
  match xs with
  | [] => mret s
  | x :: xs' => s' ← body x s; for_of xs' body s'
  end.

End Effects.

Arguments fields : clear implicits.
Arguments entry : clear implicits.
Arguments M : clear implicits.

End Effects.
Export Effects.

(** ** The worker *)

Module Worker.
Section Worker.
Context `{!Runtime}.

Record ProcessResult : Type := { success : bool }.

(** [processMessage], lines 97-118.  The simulated processing time (a 100
    ms timer) has no counterpart here. *)
Definition processMessage (message : value number) (logger : Logger)
    : M number ProcessResult :=
  if negb (ToBoolean message) || negb (String.eqb (typeof message) "object")
  then throw (Error "Invalid message format")
  else
    info logger (MessageFields message) "Processing business logic";;
    shouldFail ← lift (Get message "shouldFail");
    if truthy shouldFail
    then throw (Error "Message processing failed intentionally")
    else mret {| success := true |}.

(** The envelope step of the handler, lines 54-58:
    [let message = messageBody;
     if (messageBody.Message) message = JSON.parse(messageBody.Message);] *)
Definition unwrap (messageBody : value number) : result (value number) :=
  Message ← Get messageBody "Message";
  match Message with
  | Some inner => if ToBoolean inner then JSON_parse inner
                  else Return messageBody
  | None => Return messageBody
  end.

(** The body of the [try] block for one record, lines 49-72. *)
Definition process_record (requestLogger : Logger) (record : SQSRecord)
    : M number unit :=
  info requestLogger (MessageIdFields (messageId record))
    "Processing message";;
  messageBody ← lift (JSON_parse_text (body record));
  message ← lift (unwrap messageBody);
  info requestLogger (MessageFields message) "Parsed message";;
  processMessage message requestLogger;;
  info requestLogger (MessageIdFields (messageId record))
    "Successfully processed message".

(** The logger of an invocation, lines 19-22. *)
Definition request_logger (context : Context) : Logger :=
  child logger [("awsRequestId", awsRequestId context);
                ("functionName", functionName context)].

(** One iteration of the loop, lines 48-84: the [try] block and its
    [catch], over the array [batchItemFailures]. *)
Definition iteration (requestLogger : Logger) (record : SQSRecord)
    (batchItemFailures : list SQSBatchItemFailure)
    : M number (list SQSBatchItemFailure) :=
  try_catch
    (process_record requestLogger record;;
     mret batchItemFailures)
    (λ e,
       error requestLogger (ErrorFields (messageId record) e)
         "Error processing message";;
       mret (batchItemFailures
               ++ [{| itemIdentifier := messageId record |}])).

(** [handler], lines 14-92.  [env] is [process.env]. *)
Definition handler (env : gmap string string) (event : SQSEvent)
    (context : Context) : M number SQSBatchResponse :=
  let requestLogger := request_logger context in
  info requestLogger (EventFields event) "Event received";;
  let queueUrl := env !! "QUEUE_URL" in
  let topicArn := env !! "TOPIC_ARN" in
  let dlqUrl := env !! "DLQ_URL" in
  let environment := env !! "ENVIRONMENT" in
  let logLevel := env !! "LOG_LEVEL" in
  info requestLogger
    (EnvironmentFields queueUrl topicArn dlqUrl environment logLevel)
    "Environment Configuration";;
  batchItemFailures ← for_of (Records event) (iteration requestLogger) [];
  mret {| batchItemFailures := batchItemFailures |}.

End Worker.
End Worker.
Export Worker.


(** ** The contract: dispositions and what the trace shows *)

Module Contract.
Section Contract.
Context `{!Runtime}.

(** The outcome of one message (section 3 of the specification). *)
Inductive ProcessingOutcome : Type :=
  | Success
  | Failure (cause : exception).

Definition is_failure (o : ProcessingOutcome) : bool :=
  match o with Success => false | Failure _ => true end.

(** The failure paths of the three steps of section 4.3, in the words of
    the specification: parse the body, apply the envelope unwrapper, invoke
    the business logic. *)
Definition disposition (record : SQSRecord) : ProcessingOutcome :=
  match JSON_parse_text (body record) with
  | Throw cause => Failure cause
  | Return parsedBody =>
      match unwrap parsedBody with
      | Throw cause => Failure cause
      | Return payload =>
          match outcome (processMessage payload logger) with
          | Throw cause => Failure cause
          | Return _ => Success
          end
      end
  end.

(** A record fails when the [try] block of the handler throws on it. *)
Definition fails (record : SQSRecord) : bool :=
  is_throw (outcome (process_record logger record)).

(** The identifiers of a report's failure set. *)
Definition failure_set (response : SQSBatchResponse) : list string :=
  itemIdentifier <$> batchItemFailures response.

(** The identifiers the external runtime takes as consumed: those of the
    batch that the failure set does not hold. *)
Definition consumed (records : list SQSRecord) (response : SQSBatchResponse)
    : list string :=
  filter (λ id, id ∉ failure_set response) (messageId <$> records).

(** The premises of the specification's property on batches without
    failure, in its words: the body is valid JSON; the message is set to
    fail intentionally, its payload carrying [shouldFail: true]. *)
Definition valid_JSON (text : string) : Prop :=
  ∃ parsed, JSON_parse_text text = Return parsed.

Definition set_to_fail (record : SQSRecord) : Prop :=
  ∃ parsedBody payload,
    JSON_parse_text (body record) = Return parsedBody ∧
    unwrap parsedBody = Return payload ∧
    Get payload "shouldFail" = Return (Some (JBool true)).

(** What an entry of the trace tells about the disposition of a message:
    the closing entry of the [try] block, or the entry of the [catch]. *)
Definition logged_disposition (e : entry number)
    : option (string * ProcessingOutcome) :=
  match entry_level e, entry_fields e with
  | LevelInfo, MessageIdFields id =>
      if String.eqb (entry_msg e) "Successfully processed message"
      then Some (id, Success) else None
  | LevelError, ErrorFields id cause =>
      if String.eqb (entry_msg e) "Error processing message"
      then Some (id, Failure cause) else None
  | _, _ => None
  end.

(** The dispositions a trace shows, in the order they were reached. *)
Definition observed (w : list (entry number))
    : list (string * ProcessingOutcome) :=
  omap logged_disposition w.

(** The entries of the handler's trace that the loop logged: all but the
    two opening ones (the event, the configuration). *)
Definition loop_entries (w : list (entry number)) : list (entry number) :=
  drop 2 w.

(** What one failing or succeeding record adds to [batchItemFailures]. *)
Definition failure_of (record : SQSRecord) : list SQSBatchItemFailure :=
  if fails record then [{| itemIdentifier := messageId record |}] else [].

End Contract.
End Contract.
Export Contract.

(** ** Reading the trace by level, and payloads by shape *)

Module Reading.
Section Reading.
Context `{!Runtime}.

(** The entries a logger at level [error] lets through. *)
Definition is_error (e : entry number) : bool :=
  match entry_level e with
  | LevelError => true
  | LevelInfo => false
  end.

Definition error_entries (w : list (entry number)) : list (entry number) :=
  filter (λ e, is_error e) w.

(** Arrays and objects, the values whose [typeof] is [object] and that are
    truthy. *)
Definition is_structured (v : value number) : bool :=
  match v with
  | JArray _ | JObject _ => true
  | JNull | JBool _ | JNumber _ | JString _ => false
  end.

(** The own property [shouldFail] of an object; an array has none. *)
Definition shouldFail_of (v : value number) : option (value number) :=
  match v with
  | JObject properties => properties !! "shouldFail"
  | _ => None
  end.

(** What the [catch] logs for a record, if it fails. *)
Definition error_fields (record : SQSRecord) : option (fields number) :=
  match disposition record with
  | Failure cause => Some (ErrorFields (messageId record) cause)
  | Success => None
  end.

(** A direct payload: a value that is not [null] and carries no truthy
    [Message], so that line 56 reads [Message] without throwing and finds
    it absent or falsy. *)
Definition is_direct (v : value number) : bool :=
  match v with
  | JNull => false
  | JObject properties => negb (truthy (properties !! "Message"))
  | JBool _ | JNumber _ | JString _ | JArray _ => true
  end.

(** The pair of a record that decides its disposition. *)
Definition id_and_body (record : SQSRecord) : string * string :=
  (messageId record, body record).

End Reading.
End Reading.
Export Reading.

(** ** A reference runtime

    An executable reading of the runtime interface, used to run the handler
    on concrete batches.  Texts are byte strings in UTF-8.  A number is kept
    as an exact decimal [mantissa * 10 ^ exponent], the mantissa not a
    multiple of ten; this is the double the engine holds, and the way the
    engine prints it, whenever the literal is the shortest decimal form of
    that double (integers and short decimals). *)

Module Reference.

Record decimal : Type := { mantissa : Z; exponent : Z }.

Definition is_ws (c : ascii) : bool :=
  match N_of_ascii c with
  | 32%N | 9%N | 10%N | 13%N => true
  | _ => false
  end.

Fixpoint skip_ws (s : string) : string :=
  match s with
  | String c s' => if is_ws c then skip_ws s' else s
  | EmptyString => s
  end.

Definition digit (c : ascii) : option Z :=
  let n := N_of_ascii c in
  if ((48 <=? n) && (n <=? 57))%N then Some (Z.of_N n - 48)%Z else None.

Definition hex_digit (c : ascii) : option N :=
  let n := N_of_ascii c in
  if ((48 <=? n) && (n <=? 57))%N then Some (n - 48)%N
  else if ((65 <=? n) && (n <=? 70))%N then Some (n - 55)%N
  else if ((97 <=? n) && (n <=? 102))%N then Some (n - 87)%N
  else None.

(** The UTF-8 form of a code unit below 65536. *)
Definition utf8 (u : N) : string :=
  let byte (n : N) := ascii_of_N n in
  (if u <? 128 then String (byte u) ""
   else if u <? 2048 then
     String (byte (192 + u / 64)) (String (byte (128 + u mod 64)) "")
   else
     String (byte (224 + u / 4096))
       (String (byte (128 + (u / 64) mod 64))
          (String (byte (128 + u mod 64)) "")))%N.

(** The characters of a string literal after its opening quote, up to the
    closing quote; the result is the string denoted and the rest of the
    text. *)
Fixpoint read_string (s : string) : option (string * string) :=
  match s with
  | EmptyString => None
  | String c s' =>
      match N_of_ascii c with
      | 34%N => Some ("", s')
      | 92%N =>
          match s' with
          | String e s'' =>
              let simple (n : N) :=
                '(str, rest) ← read_string s'';
                Some (String (ascii_of_N n) str, rest) in
              match N_of_ascii e with
              | 34%N => simple 34%N
              | 92%N => simple 92%N
              | 47%N => simple 47%N
              | 98%N => simple 8%N
              | 102%N => simple 12%N
              | 110%N => simple 10%N
              | 114%N => simple 13%N
              | 116%N => simple 9%N
              | 117%N =>
                  match s'' with
                  | String h1 (String h2 (String h3 (String h4 s3))) =>
                      a ← hex_digit h1; b ← hex_digit h2;
                      c ← hex_digit h3; d ← hex_digit h4;
                      '(str, rest) ← read_string s3;
                      Some (utf8 (((a * 16 + b) * 16 + c) * 16 + d)%N
                              +:+ str, rest)
                  | _ => None
                  end
              | _ => None
              end
          | EmptyString => None
          end
      | n =>
          if (n <? 32)%N then None
          else '(str, rest) ← read_string s'; Some (String c str, rest)
      end
  end.

(** A run of digits: the value they add to [acc], their count, the rest. *)
Fixpoint read_digits (s : string) (acc : Z) (count : Z) : Z * Z * string :=
  match s with
  | String c s' =>
      match digit c with
      | Some d => read_digits s' (acc * 10 + d)%Z (count + 1)%Z
      | None => (acc, count, s)
      end
  | EmptyString => (acc, count, s)
  end.

Fixpoint strip_zeros (fuel : nat) (m e : Z) : decimal :=
  match fuel with
  | S fuel' =>
      if (m =? 0)%Z then {| mantissa := 0; exponent := 0 |}
      else if (m mod 10 =? 0)%Z then strip_zeros fuel' (m / 10)%Z (e + 1)%Z
      else {| mantissa := m; exponent := e |}
  | O => {| mantissa := m; exponent := e |}
  end.

Definition normal (m e : Z) : decimal :=
  strip_zeros (S (Z.to_nat (Z.log2 (Z.abs m)))) m e.

(** A number literal: an optional minus sign, an integer part without
    superfluous leading zero, an optional fraction (a dot and digits), an
    optional exponent (e or E, an optional sign, digits). *)
Definition read_number (s : string) : option (decimal * string) :=
  let '(negative, s) :=
    match s with
    | String c s' => if (N_of_ascii c =? 45)%N then (true, s') else (false, s)
    | EmptyString => (false, s)
    end in
  let '(int, n, s1) := read_digits s 0 0 in
  let leading_zero :=
    match s with
    | String c _ => (N_of_ascii c =? 48)%N
    | EmptyString => false
    end in
  if (n =? 0)%Z || (leading_zero && (1 <? n)%Z) then None
  else
    '(m, frac, s2) ←
      match s1 with
      | String c s' =>
          if (N_of_ascii c =? 46)%N then
            let '(m, k, s'') := read_digits s' int 0 in
            if (k =? 0)%Z then None else Some (m, k, s'')
          else Some (int, 0%Z, s1)
      | EmptyString => Some (int, 0%Z, s1)
      end;
    '(e, s3) ←
      match s2 with
      | String c s' =>
          if (N_of_ascii c =? 101)%N || (N_of_ascii c =? 69)%N then
            let '(minus, s'') :=
              match s' with
              | String c' t =>
                  if (N_of_ascii c' =? 45)%N then (true, t)
                  else if (N_of_ascii c' =? 43)%N then (false, t)
                  else (false, s')
              | EmptyString => (false, s')
              end in
            let '(x, k, s''') := read_digits s'' 0 0 in
            if (k =? 0)%Z then None
            else Some (if minus then (- x)%Z else x, s''')
          else Some (0%Z, s2)
      | EmptyString => Some (0%Z, s2)
      end;
    Some (normal (if negative then (- m)%Z else m) (e - frac)%Z, s3).

Definition expect (word : string) (s : string) : option string :=
  if String.prefix word s
  then Some (String.substring (String.length word)
               (String.length s - String.length word) s)
  else None.

(** A JSON value, then the elements of an array after its opening bracket
    or a comma, then the members of an object after its opening brace or a
    comma.  Every second call at least consumes a character, so twice the
    length of the text is fuel enough. *)
Fixpoint read_value (fuel : nat) (s : string)
    : option (value decimal * string) :=
  match fuel with
  | O => None
  | S fuel' =>
      match skip_ws s with
      | EmptyString => None
      | String c s' as t =>
          match N_of_ascii c with
          | 123%N =>
              match skip_ws s' with
              | String c' s'' =>
                  if (N_of_ascii c' =? 125)%N then Some (JObject ∅, s'')
                  else read_members fuel' (String c' s'') ∅
              | EmptyString => None
              end
          | 91%N =>
              match skip_ws s' with
              | String c' s'' =>
                  if (N_of_ascii c' =? 93)%N then Some (JArray [], s'')
                  else read_elements fuel' (String c' s'') []
              | EmptyString => None
              end
          | 34%N => '(str, rest) ← read_string s'; Some (JString str, rest)
          | 116%N => rest ← expect "true" t; Some (JBool true, rest)
          | 102%N => rest ← expect "false" t; Some (JBool false, rest)
          | 110%N => rest ← expect "null" t; Some (JNull, rest)
          | _ => '(n, rest) ← read_number t; Some (JNumber n, rest)
          end
      end
  end
with read_elements (fuel : nat) (s : string) (acc : list (value decimal))
    : option (value decimal * string) :=
  match fuel with
  | O => None
  | S fuel' =>
      '(v, rest) ← read_value fuel' s;
      match skip_ws rest with
      | String c rest' =>
          if (N_of_ascii c =? 44)%N then read_elements fuel' rest' (acc ++ [v])
          else if (N_of_ascii c =? 93)%N then Some (JArray (acc ++ [v]), rest')
          else None
      | EmptyString => None
      end
  end
with read_members (fuel : nat) (s : string)
    (acc : gmap string (value decimal)) : option (value decimal * string) :=
  match fuel with
  | O => None
  | S fuel' =>
      match skip_ws s with
      | String q s' =>
          if (N_of_ascii q =? 34)%N then
            '(key, rest) ← read_string s';
            match skip_ws rest with
            | String c rest' =>
                if (N_of_ascii c =? 58)%N then
                  '(v, rest'') ← read_value fuel' rest';
                  match skip_ws rest'' with
                  | String c' rest3 =>
                      if (N_of_ascii c' =? 44)%N
                      then read_members fuel' rest3 (<[key := v]> acc)
                      else if (N_of_ascii c' =? 125)%N
                      then Some (JObject (<[key := v]> acc), rest3)
                      else None
                  | EmptyString => None
                  end
                else None
            | EmptyString => None
            end
          else None
      | EmptyString => None
      end
  end.

(** [JSON.parse] on a text: one value, white space around it, nothing
    else. *)
Definition parse (text : string) : result (value decimal) :=
  match read_value (2 * String.length text + 2) text with
  | Some (v, rest) =>
      match skip_ws rest with
      | EmptyString => Return v
      | String _ _ => Throw SyntaxError
      end
  | None => Throw SyntaxError
  end.

Definition zeros (n : Z) : string :=
  String.concat "" (replicate (Z.to_nat n) "0").

(** [Number::toString] on an exact decimal: with [k] digits and the decimal
    point after the [n]-th, plain digits for [k <= n <= 21], a fraction for
    [-6 < n <= 21], the exponent form otherwise. *)
Definition print (d : decimal) : string :=
  let m := mantissa d in
  (if m =? 0 then "0"
   else
     let digits := pretty (Z.abs m) in
     let k := Z.of_nat (String.length digits) in
     let n := k + exponent d in
     let part (from len : Z) :=
       String.substring (Z.to_nat from) (Z.to_nat len) digits in
     (if m <? 0 then "-" else "") +:+
     (if (k <=? n) && (n <=? 21) then digits +:+ zeros (n - k)
      else if (0 <? n) && (n <=? 21)
      then part 0 n +:+ "." +:+ part n (k - n)
      else if (-6 <? n) && (n <=? 0)
      then "0." +:+ zeros (- n) +:+ digits
      else
        let e := n - 1 in
        let power :=
          "e" +:+ (if e <? 0 then "-" else "+") +:+ pretty (Z.abs e) in
        if k =? 1 then digits +:+ power
        else part 0 1 +:+ "." +:+ part 1 (k - 1) +:+ power))%Z.

#[export] Instance runtime : Runtime := {|
  number := decimal;
  Number_ToBoolean d := negb (mantissa d =? 0)%Z;
  Number_toString := print;
  JSON_parse_text := parse;
|}.

(** Texts of examples are written with an apostrophe where JSON has the
    double quote. *)
Fixpoint json (s : string) : string :=
  match s with
  | String c s' =>
      String (if (N_of_ascii c =? 39)%N then ascii_of_N 34 else c) (json s')
  | EmptyString => EmptyString
  end.

End Reference.

(** ** Concrete batches

    The records of the repository's tests, and a few that the tests do not
    have, for running the handler on the reference runtime. *)

Module Examples.
Import Reference.

(** A record as the tests build it. *)
Definition record (id receipt text : string) : SQSRecord :=
  {| messageId := id;
     receiptHandle := receipt;
     body := text;
     attributes :=
       {| ApproximateReceiveCount := "1";
          SentTimestamp := "1234567890000";
          SenderId := "test-sender";
          ApproximateFirstReceiveTimestamp := "1234567890000" |};
     messageAttributes := ∅;
     md5OfBody := "test-md5";
     eventSource := "aws:sqs";
     eventSourceARN := "arn:aws:sqs:us-east-1:123456789012:test-queue";
     awsRegion := "us-east-1" |}.

Definition context : Context :=
  {| awsRequestId := "test-request-id"; functionName := "test-function" |}.

Definition environment : gmap string string :=
  {[ "QUEUE_URL" := "https://sqs.us-east-1.amazonaws.com/123456789012/q";
     "LOG_LEVEL" := "debug" ]}.

(** The identifiers in the report of a run, if it returns one. *)
Definition reported (m : M decimal SQSBatchResponse) : option (list string) :=
  match outcome m with
  | Return response => Some (failure_set response)
  | Throw _ => None
  end.

Definition simple : SQSRecord :=
  record "test-message-id-1" "test-receipt-handle"
    (json "{'test':'data','timestamp':'2024-01-01T00:00:00.000Z'}").

Definition wrapped : SQSRecord :=
  record "test-message-id-2" "test-receipt-handle"
    (json "{'Type':'Notification','MessageId':'sns-message-id','TopicArn':'arn:aws:sns:us-east-1:123456789012:test-topic','Message':'{\'test\':\'hi\'}'}").

Definition success_1 : SQSRecord :=
  record "message-success-1" "receipt-1" (json "{'id':1,'data':'Success'}").

Definition failure : SQSRecord :=
  record "message-fail" "receipt-2" (json "{'shouldFail':true}").

Definition success_2 : SQSRecord :=
  record "message-success-2" "receipt-3" (json "{'id':3,'data':'Success'}").

Definition invalid : SQSRecord :=
  record "test-invalid-json" "test-receipt-handle" "{ invalid json }".

(** Bodies that the tests do not exercise. *)
Definition enveloped : SQSRecord :=
  record "message-enveloped" "receipt-4"
    (json "{'Message':'{\'test\':\'hi\'}'}").

Definition number_body : SQSRecord :=
  record "message-number" "receipt-5" "42".

Definition empty_Message : SQSRecord :=
  record "message-empty-envelope" "receipt-6" (json "{'Message':''}").

Definition twice_wrapped : value decimal :=
  JObject {[ "Message" := JString (json "{'Message':'{}'}") ]}.

(** [simple] again, as a redelivery would carry it. *)
Definition redelivered : SQSRecord :=
  {| messageId := messageId simple;
     receiptHandle := "another-receipt-handle";
     body := body simple;
     attributes :=
       {| ApproximateReceiveCount := "3";
          SentTimestamp := "1234567890000";
          SenderId := "test-sender";
          ApproximateFirstReceiveTimestamp := "1234567899000" |};
     messageAttributes :=
       {[ "trace" := {| stringValue := Some "abc"; binaryValue := None;
                        dataType := "String" |} ]};
     md5OfBody := "test-md5";
     eventSource := "aws:sqs";
     eventSourceARN := "arn:aws:sqs:us-east-1:123456789012:test-queue";
     awsRegion := "eu-west-1" |}.

(** [toLowerCase] as it acts on ASCII texts. *)
Fixpoint ascii_lower (s : string) : string :=
  match s with
  | String c s' =>
      let n := N_of_ascii c in
      String (if ((65 <=? n) && (n <=? 90))%N then ascii_of_N (n + 32) else c)
        (ascii_lower s')
  | EmptyString => EmptyString
  end.

(** An envelope whose [Message] is an object, not the text of one. *)
Definition object_Message : SQSRecord :=
  record "message-object" "receipt-7" (json "{'Message':{'test':'hi'}}").

End Examples.

(** ** The logger configuration of [utils/logger.ts] *)

Module LoggerConfig.
Section LoggerConfig.

(** [String.prototype.toLowerCase], which follows the Unicode case
    mappings, is the engine's. *)
Variable toLowerCase : string → string.

(** [process.env.LOG_LEVEL?.toLowerCase() || "info"], line 16. *)
Definition logLevel (env : gmap string string) : string :=
  match env !! "LOG_LEVEL" with
  | None => "info"
  | Some level =>
      let lowered := toLowerCase level in
      if String.eqb lowered "" then "info" else lowered
  end.

(** [createChildLogger], lines 50-52. *)
Definition createChildLogger (bindings : list (string * string)) : Logger :=
  child logger bindings.

End LoggerConfig.
End LoggerConfig.

(** ** Loading the module, then invoking the handler

    [utils/logger.ts] builds the logger when the module is loaded, lines
    27-43: [pino] is given the level and either returns the logger or
    throws, on a level whose name it does not know.  Which names it knows,
    and what it throws, is the library's. *)

Module Load.
Section Load.
Context `{!Runtime}.

Variable toLowerCase : string → string.

(** Whether [pino] knows a level by this name, and what it throws when it
    does not. *)
Variable pino_knows : string → bool.
Variable pino_error : string → exception.



End Load.




End Load.

(** ** The local test script, [scripts/test-lambda-local.ts]

    [runTest], [runAllTests], [setupEnvironment] and [createMockContext].
    The script writes to the console, between the entries the handler hands
    to the logger, and sets variables of [process.env].  The table of
    scenarios holds times read from the clock when the module is loaded; it
    is taken as it stands after that.  The dispatch on the command line at
    the end of the script is left out. *)

Module Script.
Section Script.
Context `{!Runtime}.

(** The keys of [TEST_SCENARIOS], in the order [Object.keys] gives them. *)
Inductive ScenarioKey : Type := simple | sns | batch | failure | partial.

Record Scenario : Type := { name : string; event : SQSEvent }.

Variable TEST_SCENARIOS : ScenarioKey → Scenario.

(** [JSON.stringify(result, null, 2)], the engine's. *)
Variable JSON_stringify : SQSBatchResponse → string.

(** What reaches the terminal: an entry of the logger, a line of
    [console.log], or the label and the error of [console.error]. *)
Inductive output : Type :=
  | Logged (e : entry number)
  | Out (text : string)
  | Err (label : string) (error : exception).

(** A step of the script: it may throw, it may change [process.env], and it
    leaves its outputs in order. *)
Definition Script (A : Type) : Type :=
  gmap string string → result A * gmap string string * list output.

#[global] Instance Script_ret : MRet Script := λ A a env, (Return a, env, []).
#[global] Instance Script_bind : MBind Script := λ A B f m env,
  match m env with
  | (Return a, env', w) => let '(r, env'', w') := f a env' in (r, env'', w ++ w')
  | (Throw e, env', w) => (Throw e, env', w)
  end.

Definition console_log (text : string) : Script unit :=
  λ env, (Return (), env, [Out text]).

Definition console_error (label : string) (error : exception) : Script unit :=
  λ env, (Return (), env, [Err label error]).

(** [process.env.K = v] *)
Definition setenv (K v : string) : Script unit :=
  λ env, (Return (), <[K := v]> env, []).

(** [await handler(event, context)], the handler reading [process.env]. *)
Definition call_handler (event : SQSEvent) (context : Context)
    : Script SQSBatchResponse :=
  λ env, let '(r, w) := handler env event context in (r, env, Logged <$> w).

Definition try_catch {A} (m : Script A) (h : exception → Script A)
    : Script A :=
  λ env,
    match m env with
    | (Return a, env', w) => (Return a, env', w)
    | (Throw e, env', w) => let '(r, env'', w') := h e env' in (r, env'', w ++ w')
    end.

(** [xs.forEach(body)] and [for (const x of xs) await body(x)] *)
Fixpoint for_each {A} (xs : list A) (body : A → Script unit) : Script unit :=
  match xs with
  | [] => mret ()
  | x :: xs' => body x;; for_each xs' body
  end.

Definition newline : string := String (ascii_of_nat 10) "".

(** [s.repeat(n)] *)
Definition repeat (s : string) (n : nat) : string :=
  String.concat "" (replicate n s).

(** [createMockContext], lines 222-236; [now] is what [Date.now()] gives. *)
Definition createMockContext (now : N) : Context :=
  {| awsRequestId := "local-request-" +:+ pretty now;
     functionName := "local-test-function" |}.

(** [setupEnvironment], lines 239-247. *)
Definition setupEnvironment : Script unit :=
  setenv "QUEUE_URL"
    "https://sqs.us-east-1.amazonaws.com/123456789012/test-queue";;
  setenv "TOPIC_ARN" "arn:aws:sns:us-east-1:123456789012:test-topic";;
  setenv "DLQ_URL"
    "https://sqs.us-east-1.amazonaws.com/123456789012/test-dlq";;
  setenv "ENVIRONMENT" "local";;
  setenv "LOG_LEVEL" "debug".

(** [runTest], lines 249-283. *)
Definition runTest (now : N) (scenarioKey : ScenarioKey) : Script unit :=
  let scenario := TEST_SCENARIOS scenarioKey in
  console_log (newline +:+ repeat "=" 60);;
  console_log ("🧪 Testing: " +:+ name scenario);;
  console_log (repeat "=" 60 +:+ newline);;
  try_catch
    (result ← call_handler (event scenario) (createMockContext now);
     console_log (newline +:+ repeat "─" 60);;
     console_log "✅ Lambda execution completed";;
     console_log (repeat "─" 60);;
     console_log (newline +:+ "📊 Result:");;
     console_log (JSON_stringify result);;
     if (0 <? length (batchItemFailures result))%nat
     then
       console_log
         (newline +:+ "⚠️  "
            +:+ pretty (length (batchItemFailures result))
            +:+ " message(s) failed:");;
       for_each (batchItemFailures result)
         (λ failure, console_log ("   - " +:+ itemIdentifier failure))
     else console_log (newline +:+ "✨ All messages processed successfully!"))
    (λ error,
       console_log (newline +:+ repeat "─" 60);;
       console_log "❌ Lambda execution failed";;
       console_log (repeat "─" 60);;
       console_error (newline +:+ "🔥 Error:") error).

Definition scenarios : list ScenarioKey :=
  [simple; sns; batch; failure; partial].

(** [runAllTests], lines 285-302; [now] gives the time at which the run of
    each scenario reads the clock. *)
Definition runAllTests (now : ScenarioKey → N) : Script unit :=
  console_log (newline +:+ "🚀 Starting Local Lambda Tests");;
  console_log (repeat "=" 60);;
  setupEnvironment;;
  for_each scenarios (λ scenario, runTest (now scenario) scenario);;
  console_log (newline +:+ repeat "=" 60);;
  console_log "🏁 All tests completed!";;
  console_log (repeat "=" 60 +:+ newline).

End Script.
End Script.

(** ** Proof support *)

Create Rewrite HintDb outcome.
Create Rewrite HintDb trace.

(** Runs the binds of an outcome, or of a trace, as far as they are
    known, with the equations of the monad. *)
Ltac run_outcome :=
  repeat (progress (autorewrite with outcome; cbv beta iota)).
Ltac run_trace :=
  repeat (progress (autorewrite with trace outcome; cbv beta iota)).

(** ** Properties of the handler on any runtime *)

Section Properties.
Context `{!Runtime}.

Implicit Types (record : SQSRecord) (records : list SQSRecord).
Implicit Types (l : Logger) (env : gmap string string) (context : Context).
Implicit Types (fs : list SQSBatchItemFailure) (v : value number).

(** *** The effect monad *)

Lemma outcome_bind {A B} (m : M number A) (k : A → M number B) :
  outcome (m ≫= k) =
  match outcome m with
  | Return a => outcome (k a)
  | Throw e => Throw e
  end.
Proof.
  destruct m as [[a|e] w]; simpl; [|done].
  unfold outcome. simpl. by destruct (k a).
Qed.

Lemma trace_bind {A B} (m : M number A) (k : A → M number B) :
  trace (m ≫= k) =
  trace m ++ match outcome m with
             | Return a => trace (k a)
             | Throw _ => []
             end.
Proof.
  destruct m as [[a|e] w]; unfold trace, outcome; simpl.
  - by destruct (k a).
  - by rewrite app_nil_r.
Qed.

Lemma outcome_try_catch {A} (m : M number A) (h : exception → M number A) :
  outcome (try_catch m h) =
  match outcome m with
  | Return a => Return a
  | Throw e => outcome (h e)
  end.
Proof.
  destruct m as [[a|e] w]; unfold outcome; simpl; [done|].
  by destruct (h e).
Qed.

Lemma trace_try_catch {A} (m : M number A) (h : exception → M number A) :
  trace (try_catch m h) =
  trace m ++ match outcome m with
             | Return _ => []
             | Throw e => trace (h e)
             end.
Proof.
  destruct m as [[a|e] w]; unfold trace, outcome; simpl.
  - by rewrite app_nil_r.
  - by destruct (h e).
Qed.

Lemma outcome_ret {A} (a : A) : outcome (mret a : M number A) = Return a.
Proof. done. Qed.

Lemma trace_ret {A} (a : A) : trace (mret a : M number A) = [].
Proof. done. Qed.

Lemma outcome_lift {A} (r : result A) : outcome (lift r : M number A) = r.
Proof. done. Qed.

Lemma trace_lift {A} (r : result A) : trace (lift r : M number A) = [].
Proof. done. Qed.

Lemma outcome_throw {A} (e : exception) :
  outcome (throw e : M number A) = Throw e.
Proof. done. Qed.

Lemma trace_throw {A} (e : exception) : trace (throw e : M number A) = [].
Proof. done. Qed.

Lemma outcome_info l (f : fields number) msg :
  outcome (info l f msg) = Return ().
Proof. done. Qed.

Lemma outcome_error l (f : fields number) msg :
  outcome (error l f msg) = Return ().
Proof. done. Qed.

Lemma M_eq {A} (m m' : M number A) :
  outcome m = outcome m' → trace m = trace m' → m = m'.
Proof. destruct m, m'. unfold outcome, trace. simpl. congruence. Qed.

Hint Rewrite @outcome_bind @outcome_try_catch @outcome_ret @outcome_lift
  @outcome_throw @outcome_info @outcome_error : outcome.
Hint Rewrite @trace_bind @trace_try_catch @trace_ret @trace_lift
  @trace_throw : trace.

(** *** The business logic and the [try] block *)

(** The logger of [processMessage] is written to, never read. *)
Lemma processMessage_outcome v l l' :
  outcome (processMessage v l) = outcome (processMessage v l').
Proof.
  unfold processMessage.
  destruct (negb (ToBoolean v) || negb (String.eqb (typeof v) "object"));
    [done|].
  by run_outcome.
Qed.

(** [processMessage] succeeds exactly on a truthy object or array with no
    truthy [shouldFail]. *)
Lemma processMessage_outcome_cases v l :
  outcome (processMessage v l) =
  if negb (ToBoolean v) || negb (String.eqb (typeof v) "object")
  then Throw (Error "Invalid message format")
  else match Get v "shouldFail" with
       | Throw e => Throw e
       | Return flag =>
           if truthy flag
           then Throw (Error "Message processing failed intentionally")
           else Return {| success := true |}
       end.
Proof.
  unfold processMessage.
  destruct (negb (ToBoolean v) || negb (String.eqb (typeof v) "object"));
    [done|].
  run_outcome.
  destruct (Get v "shouldFail") as [flag|e]; [|done].
  by destruct (truthy flag).
Qed.

(** The [try] block throws exactly what the three steps throw. *)
Lemma process_record_outcome l record :
  outcome (process_record l record) =
  match disposition record with
  | Success => Return ()
  | Failure cause => Throw cause
  end.
Proof.
  unfold process_record, disposition.
  run_outcome.
  destruct (JSON_parse_text (body record)) as [parsedBody|e]; [|done].
  run_outcome.
  destruct (unwrap parsedBody) as [payload|e]; [|done].
  run_outcome.
  rewrite (processMessage_outcome payload l logger).
  destruct (outcome (processMessage payload logger)); [|done].
  by run_outcome.
Qed.

Lemma fails_disposition record :
  fails record = is_failure (disposition record).
Proof.
  unfold fails. rewrite process_record_outcome.
  by destruct (disposition record).
Qed.

(** *** One iteration, the loop, the handler *)

(** No iteration throws: the [catch] turns what the [try] block throws
    into one more item of [batchItemFailures], and leaves the items already
    there as they are. *)
Lemma iteration_outcome l record fs :
  outcome (iteration l record fs) = Return (fs ++ failure_of record).
Proof.
  unfold iteration, failure_of. run_outcome.
  rewrite fails_disposition, process_record_outcome.
  destruct (disposition record); simpl; [|done].
  by rewrite app_nil_r.
Qed.

(** The entries one iteration logs do not depend on the array. *)
Lemma iteration_trace l record fs fs' :
  trace (iteration l record fs) = trace (iteration l record fs').
Proof.
  unfold iteration. run_trace.
  by destruct (outcome (process_record l record)).
Qed.

Lemma for_of_iteration_outcome l records fs :
  outcome (for_of records (iteration l) fs) =
  Return (fs ++ (records ≫= failure_of)).
Proof.
  revert fs. induction records as [|record records IH]; intros fs; simpl.
  - by rewrite app_nil_r.
  - rewrite outcome_bind, iteration_outcome, IH. by rewrite <-(assoc (++)).
Qed.

Lemma for_of_iteration_trace l records fs :
  trace (for_of records (iteration l) fs) =
  records ≫= (λ record, trace (iteration l record [])).
Proof.
  revert fs. induction records as [|record records IH]; intros fs; simpl.
  - done.
  - rewrite trace_bind, iteration_outcome, IH.
    by rewrite (iteration_trace l record fs []).
Qed.

(** The handler returns, and its report holds the items of the failing
    records in the order of the batch. *)
Lemma handler_outcome env event context :
  outcome (handler env event context) =
  Return {| batchItemFailures := Records event ≫= failure_of |}.
Proof.
  unfold handler. run_outcome. by rewrite for_of_iteration_outcome.
Qed.

Lemma handler_loop_entries env event context :
  loop_entries (trace (handler env event context)) =
  Records event
    ≫= (λ record, trace (iteration (request_logger context) record [])).
Proof.
  unfold handler. run_trace.
  rewrite for_of_iteration_outcome, for_of_iteration_trace.
  by rewrite app_nil_r.
Qed.

Lemma observed_app (w w' : list (entry number)) :
  observed (w ++ w') = observed w ++ observed w'.
Proof. apply omap_app. Qed.

(** The business logic logs no disposition. *)
Lemma observed_processMessage v l : observed (trace (processMessage v l)) = [].
Proof.
  unfold processMessage.
  destruct (negb (ToBoolean v) || negb (String.eqb (typeof v) "object"));
    [done|].
  run_trace. destruct (Get v "shouldFail") as [flag|e]; [|done].
  by destruct (truthy flag).
Qed.

(** Each iteration shows in the trace by exactly one disposition, that of
    its record. *)
Lemma observed_iteration l record fs :
  observed (trace (iteration l record fs)) =
  [(messageId record, disposition record)].
Proof.
  unfold iteration, process_record, disposition. run_trace.
  destruct (JSON_parse_text (body record)) as [parsedBody|e]; [|done].
  run_trace.
  destruct (unwrap parsedBody) as [payload|e]; [|done].
  run_trace. rewrite (processMessage_outcome payload l logger).
  rewrite !observed_app, observed_processMessage.
  by destruct (outcome (processMessage payload logger)).
Qed.

Lemma observed_iterations l records :
  observed (records ≫= (λ record, trace (iteration l record []))) =
  (λ record, (messageId record, disposition record)) <$> records.
Proof.
  induction records as [|record records IH]; [done|].
  by rewrite bind_cons, fmap_cons, observed_app, observed_iteration, IH.
Qed.

(** The trace of the handler shows one disposition for each record of the
    batch, in the order of the batch. *)
Lemma handler_observed env event context :
  observed (trace (handler env event context)) =
  (λ record, (messageId record, disposition record)) <$> Records event.
Proof.
  unfold handler. run_trace.
  rewrite for_of_iteration_outcome, for_of_iteration_trace.
  rewrite !observed_app, observed_iterations. by rewrite app_nil_r.
Qed.

(** *** The failure set *)

Lemma failure_of_items records :
  records ≫= failure_of =
  (λ record, {| itemIdentifier := messageId record |})
    <$> filter (λ record, is_failure (disposition record)) records.
Proof.
  induction records as [|record records IH]; [done|].
  rewrite bind_cons, filter_cons, IH. unfold failure_of at 1.
  rewrite fails_disposition.
  destruct (is_failure (disposition record)); by simpl.
Qed.

Lemma failure_set_items records :
  failure_set {| batchItemFailures := records ≫= failure_of |} =
  messageId <$> filter (λ record, fails record) records.
Proof.
  unfold failure_set. simpl.
  induction records as [|record records IH]; [done|].
  rewrite bind_cons, fmap_app, filter_cons, IH. unfold failure_of at 1.
  destruct (fails record); by simpl.
Qed.

Lemma failure_set_sublist records :
  failure_set {| batchItemFailures := records ≫= failure_of |}
    `sublist_of` messageId <$> records.
Proof.
  rewrite failure_set_items. apply fmap_sublist, sublist_filter.
Qed.

Lemma elem_of_failure_set records id :
  id ∈ failure_set {| batchItemFailures := records ≫= failure_of |} ↔
  ∃ record, record ∈ records ∧ messageId record = id ∧ fails record = true.
Proof.
  rewrite failure_set_items, list_elem_of_fmap. split.
  - intros (record & -> & [Hfails Hin]%list_elem_of_filter).
    exists record. split_and!; [done..|]. by apply Is_true_true.
  - intros (record & Hin & <- & Hfails). exists record. split; [done|].
    apply list_elem_of_filter. split; [|done]. by apply Is_true_true.
Qed.

(** The disposition of a record is decided by its body. *)
Lemma disposition_body record record' :
  body record = body record' → disposition record = disposition record'.
Proof. unfold disposition. by intros ->. Qed.

Lemma failure_of_id_body record record' :
  messageId record = messageId record' → body record = body record' →
  failure_of record = failure_of record'.
Proof.
  intros Hid Hbody. unfold failure_of.
  by rewrite !fails_disposition, (disposition_body _ _ Hbody), Hid.
Qed.

(** *** The claims *)

(** C1, failure isolation.  Take any batch and any position of a failing
    message in it.  The handler reports the failing message between what it
    reports for the messages before it and for those after it, handled on
    their own; without the failing message it reports the same items for
    the others.  The trace shows one disposition for every message of the
    batch, so none is skipped and the loop does not stop, and taking the
    failing message's disposition out of it leaves the dispositions the
    others have when the failing message is absent.  What the loop logs for
    the others, entry by entry, is what it logs for them without the failing
    message. *)
Theorem failure_isolation env context
    (before : list SQSRecord) (failing : SQSRecord)
    (after : list SQSRecord) :
  fails failing = true →
  let run records := handler env {| Records := records |} context in
  (∃ fs_before fs_after,
     outcome (run before) = Return {| batchItemFailures := fs_before |} ∧
     outcome (run after) = Return {| batchItemFailures := fs_after |} ∧
     outcome (run (before ++ failing :: after)) =
       Return {| batchItemFailures :=
                   fs_before ++ {| itemIdentifier := messageId failing |}
                             :: fs_after |} ∧
     outcome (run (before ++ after)) =
       Return {| batchItemFailures := fs_before ++ fs_after |}) ∧
  length (observed (trace (run (before ++ failing :: after)))) =
    length (before ++ failing :: after) ∧
  delete (length before)
    (observed (trace (run (before ++ failing :: after)))) =
    observed (trace (run (before ++ after))) ∧
  loop_entries (trace (run (before ++ failing :: after))) =
    loop_entries (trace (run before))
      ++ loop_entries (trace (run [failing]))
      ++ loop_entries (trace (run after)) ∧
  loop_entries (trace (run (before ++ after))) =
    loop_entries (trace (run before)) ++ loop_entries (trace (run after)).
Proof.
  intros Hfails run. subst run. cbv beta.
  assert (failure_of failing
          = [{| itemIdentifier := messageId failing |}]) as Hitem
    by (unfold failure_of; by rewrite Hfails).
  rewrite !handler_outcome, !handler_observed, !handler_loop_entries. simpl.
  split_and!.
  - exists (before ≫= failure_of), (after ≫= failure_of).
    by rewrite !bind_app, bind_cons, Hitem.
  - by rewrite length_fmap.
  - rewrite !fmap_app, fmap_cons.
    rewrite <-(length_fmap
                 (λ record, (messageId record, disposition record)) before).
    apply delete_middle.
  - by rewrite bind_app, bind_cons, app_nil_r.
  - by rewrite bind_app.
Qed.

(** C2, exactly one disposition.  When the messages of a batch have
    distinct identifiers, no identifier occurs twice in the failure set, the
    failure set together with the identifiers it does not hold (those the
    runtime takes as consumed) is the batch's identifiers with no duplicate
    and no omission, and a message is in the failure set exactly when it
    failed. *)
Theorem exactly_one_disposition env event context :
  NoDup (messageId <$> Records event) →
  ∃ response,
    outcome (handler env event context) = Return response ∧
    NoDup (failure_set response) ∧
    failure_set response ++ consumed (Records event) response
      ≡ₚ messageId <$> Records event ∧
    (∀ record, record ∈ Records event →
       messageId record ∈ failure_set response ↔ fails record = true).
Proof.
  intros Hids. eexists. split; [apply handler_outcome|].
  pose proof (failure_set_sublist (Records event)) as Hsub.
  set (response := {| batchItemFailures := Records event ≫= failure_of |})
    in *.
  assert (NoDup (failure_set response)) as Hfs
    by (by eapply sublist_NoDup).
  split_and!; [done| |].
  - unfold consumed. apply NoDup_Permutation; [|done|].
    + apply NoDup_app. split_and!; [done| |by apply NoDup_filter].
      intros id Hin [Hnot _]%list_elem_of_filter. done.
    + intros id. rewrite elem_of_app, list_elem_of_filter. split.
      * intros [Hin|[_ Hin]]; [|done]. by eapply sublist_subseteq.
      * intros Hin. destruct (decide (id ∈ failure_set response)); auto.
  - intros record Hin. unfold response. rewrite elem_of_failure_set. split.
    + intros (record' & Hin' & Hid & Hfails).
      assert (record' = record) as <-; [|done].
      apply list_elem_of_lookup in Hin as [i Hi].
      apply list_elem_of_lookup in Hin' as [j Hj].
      assert (i = j) as ->; [|congruence].
      apply (NoDup_lookup (messageId <$> Records event) i j
               (messageId record)); [done| |].
      * by rewrite list_lookup_fmap, Hi.
      * by rewrite list_lookup_fmap, Hj, <-Hid.
    + intros Hfails. by exists record.
Qed.

(** C3, no foreign identifier.  Every identifier in the failure set of the
    report is the [messageId] of a message of the batch. *)
Theorem failure_set_within_batch env event context :
  ∃ response,
    outcome (handler env event context) = Return response ∧
    failure_set response ⊆ messageId <$> Records event.
Proof.
  eexists. split; [apply handler_outcome|].
  apply sublist_subseteq, failure_set_sublist.
Qed.

(** C5, total and non-aborting error handling.  The handler returns a
    report for every batch.  Whatever the [try] block throws on a message
    is caught in the iteration of that message: the message is put in the
    failure set and the error is logged with its identifier; the failure
    set holds the messages on which something was thrown and no others;
    this covers a body that does not parse, an envelope that does not
    unwrap, and anything the business logic throws (its precondition, its
    intentional failure, or any other failure); and no iteration throws. *)
Theorem errors_stay_with_their_message env event context :
  ∃ response,
    outcome (handler env event context) = Return response ∧
    (∀ record e,
       record ∈ Records event →
       outcome (process_record (request_logger context) record) = Throw e →
       messageId record ∈ failure_set response ∧
       (messageId record, Failure e)
         ∈ observed (trace (handler env event context))) ∧
    (∀ id,
       id ∈ failure_set response →
       ∃ record e,
         record ∈ Records event ∧ messageId record = id ∧
         outcome (process_record (request_logger context) record)
           = Throw e) ∧
    (∀ record,
       record ∈ Records event →
       match JSON_parse_text (body record) with
       | Throw _ => messageId record ∈ failure_set response
       | Return parsedBody =>
           match unwrap parsedBody with
           | Throw _ => messageId record ∈ failure_set response
           | Return payload =>
               is_throw
                 (outcome (processMessage payload (request_logger context)))
                 = true →
               messageId record ∈ failure_set response
           end
       end) ∧
    (∀ record fs,
       is_throw (outcome (iteration (request_logger context) record fs))
         = false).
Proof.
  eexists. split; [apply handler_outcome|].
  split_and!.
  - intros record e Hin Hthrow.
    rewrite process_record_outcome in Hthrow.
    destruct (disposition record) as [|cause] eqn:Hd; [done|].
    injection Hthrow as ->. split.
    + apply elem_of_failure_set. exists record. split_and!; [done..|].
      by rewrite fails_disposition, Hd.
    + rewrite handler_observed, list_elem_of_fmap.
      exists record. by rewrite Hd.
  - intros id (record & Hin & Hid & Hfails)%elem_of_failure_set.
    rewrite fails_disposition in Hfails.
    destruct (disposition record) as [|cause] eqn:Hd; [done|].
    exists record, cause. split_and!; [done..|].
    by rewrite process_record_outcome, Hd.
  - intros record Hin.
    assert (is_failure (disposition record) = true →
            messageId record
              ∈ failure_set
                  {| batchItemFailures := Records event ≫= failure_of |})
      as Hfailure.
    { intros Hd. apply elem_of_failure_set. exists record.
      by rewrite fails_disposition. }
    unfold disposition in Hfailure.
    destruct (JSON_parse_text (body record)) as [parsedBody|?]; [|auto].
    destruct (unwrap parsedBody) as [payload|?]; [|auto].
    rewrite (processMessage_outcome payload _ logger).
    destruct (outcome (processMessage payload logger)); [done|auto].
  - intros record fs. by rewrite iteration_outcome.
Qed.

(** C8, deterministic order.  The failure set of the report lists the
    identifiers of exactly the messages that failed in one of the three
    steps (parsing the body, unwrapping, the business logic), in the order
    in which the batch holds them. *)
Theorem failure_set_in_batch_order env event context :
  outcome (handler env event context) =
  Return
    {| batchItemFailures :=
         (λ record, {| itemIdentifier := messageId record |})
           <$> filter (λ record, is_failure (disposition record))
                 (Records event) |}.
Proof.
  rewrite handler_outcome.
  by rewrite failure_of_items.
Qed.

(** C10, only the identifier and the body of a record matter.  Two batches
    that agree on the sequence of pairs of [messageId] and [body], whatever
    their receipt handles, attributes and other metadata, get the same
    report and the same dispositions. *)
Theorem report_depends_on_id_and_body env context records records' :
  (λ record, (messageId record, body record)) <$> records
    = (λ record, (messageId record, body record)) <$> records' →
  outcome (handler env {| Records := records |} context)
    = outcome (handler env {| Records := records' |} context) ∧
  observed (trace (handler env {| Records := records |} context))
    = observed (trace (handler env {| Records := records' |} context)) ∧
  fails <$> records = fails <$> records'.
Proof.
  intros Heq. rewrite !handler_outcome, !handler_observed. simpl.
  revert records' Heq.
  induction records as [|record records IH]; intros [|record' records'] Heq;
    try done.
  rewrite !fmap_cons in Heq. injection Heq as Hid Hbody Heq.
  destruct (IH records' Heq) as (Hitems & Hobserved & Hfails).
  injection Hitems as Hitems.
  rewrite !bind_cons, !fmap_cons, Hitems, Hobserved, Hfails.
  rewrite (failure_of_id_body record record' Hid Hbody).
  rewrite !fails_disposition, (disposition_body record record' Hbody), Hid.
  done.
Qed.

(** A payload that carries no truthy [Message] is its own unwrapping. *)
Lemma unwrap_direct v Message :
  Get v "Message" = Return Message → truthy Message = false →
  unwrap v = Return v.
Proof.
  unfold unwrap. intros -> Hfalsy. simpl.
  destruct Message as [inner|]; [|done].
  simpl in Hfalsy. by rewrite Hfalsy.
Qed.

(** The [try] block on a record whose body parses and unwraps. *)
Lemma process_record_payload l record parsedBody payload :
  JSON_parse_text (body record) = Return parsedBody →
  unwrap parsedBody = Return payload →
  process_record l record =
  (info l (MessageIdFields (messageId record)) "Processing message";;
   info l (MessageFields payload) "Parsed message";;
   processMessage payload l;;
   info l (MessageIdFields (messageId record))
     "Successfully processed message").
Proof.
  intros Hparse Hunwrap. unfold process_record.
  apply M_eq; run_trace; rewrite Hparse; run_trace; rewrite Hunwrap;
    by run_trace.
Qed.

(** C4, as amended.  When every body of the batch is valid JSON, the
    envelope step yields a payload without throwing, the payload is a
    non-null object or an array, and its [shouldFail] property is absent or
    falsy, the handler returns an empty failure set. *)
Theorem no_failure_on_structured_payloads env event context :
  Forall
    (λ record,
       ∃ parsedBody payload flag,
         JSON_parse_text (body record) = Return parsedBody ∧
         unwrap parsedBody = Return payload ∧
         ToBoolean payload = true ∧
         typeof payload = "object" ∧
         Get payload "shouldFail" = Return flag ∧
         truthy flag = false)
    (Records event) →
  outcome (handler env event context) = Return {| batchItemFailures := [] |}.
Proof.
  intros Hall. rewrite handler_outcome. do 2 f_equal.
  induction Hall as [|record records Hrecord _ IH]; [done|].
  rewrite bind_cons, IH, app_nil_r.
  destruct Hrecord
    as (parsedBody & payload & flag & Hparse & Hunwrap & Htruthy & Htype
        & Hget & Hflag).
  unfold failure_of. rewrite fails_disposition. unfold disposition.
  rewrite Hparse, Hunwrap, processMessage_outcome_cases.
  by rewrite Htruthy, Htype, Hget, Hflag.
Qed.

(** C6, as amended.  Let the body of a record parse to an object.  If the
    object has a property [Message] whose value is truthy, that value,
    converted to a string, is parsed as JSON: when this yields a payload,
    the payload is what is logged as parsed and passed to the business
    logic, and when it throws, the record is in the failure set of every
    batch it is part of.  If the object has no property [Message], or one
    whose value is falsy (the empty string, zero, [false], [null]), the
    parsed body itself is passed to the business logic. *)
Theorem envelope_unwrapping l record properties :
  JSON_parse_text (body record) = Return (JObject properties) →
  let passes payload :=
    process_record l record =
    (info l (MessageIdFields (messageId record)) "Processing message";;
     info l (MessageFields payload) "Parsed message";;
     processMessage payload l;;
     info l (MessageIdFields (messageId record))
       "Successfully processed message") in
  (∀ inner,
     properties !! "Message" = Some inner → ToBoolean inner = true →
     match JSON_parse inner with
     | Return payload => passes payload
     | Throw _ =>
         ∀ env event context,
           record ∈ Records event →
           ∃ response,
             outcome (handler env event context) = Return response ∧
             messageId record ∈ failure_set response
     end) ∧
  (truthy (properties !! "Message") = false → passes (JObject properties)).
Proof.
  intros Hparse passes. subst passes. simpl. split.
  - intros inner Hinner Htruthy.
    assert (unwrap (JObject properties) = JSON_parse inner) as Hunwrap.
    { unfold unwrap. simpl. by rewrite Hinner, Htruthy. }
    destruct (JSON_parse inner) as [payload|e] eqn:Hpayload.
    + by apply process_record_payload with (JObject properties).
    + intros env event context Hin.
      eexists. split; [apply handler_outcome|].
      apply elem_of_failure_set. exists record. split_and!; [done..|].
      rewrite fails_disposition. unfold disposition.
      by rewrite Hparse, Hunwrap.
  - intros Hfalsy.
    apply process_record_payload with (JObject properties); [done|].
    by apply unwrap_direct with (properties !! "Message").
Qed.

(** C7, as amended.  Unwrapping is a no-op on a direct payload, one that
    is not [null] and carries no truthy [Message]: it returns the payload
    itself.  So, for every parsed body whose unwrapping, when it yields a
    payload, yields a direct one, unwrapping twice is unwrapping once.  On
    [null], which carries no [Message] either, unwrapping throws. *)
Theorem unwrap_idempotent_on_direct_payloads :
  (∀ payload, is_direct payload = true → unwrap payload = Return payload) ∧
  (∀ v,
     (∀ payload, unwrap v = Return payload → is_direct payload = true) →
     unwrap v ≫= unwrap = unwrap v) ∧
  (∀ v payload,
     unwrap v = Return payload → is_direct payload = true →
     unwrap v ≫= unwrap = Return payload) ∧
  unwrap JNull = Throw TypeError.
Proof.
  assert (∀ payload,
            is_direct payload = true → unwrap payload = Return payload)
    as Hnoop.
  { intros [| | | | |properties] Hdirect; try done.
    apply unwrap_direct with (properties !! "Message"); [done|].
    simpl in Hdirect. by apply negb_true_iff. }
  split_and!; [done| | |done].
  - intros v Hdirect.
    destruct (unwrap v) as [payload|e] eqn:Hunwrap; [|done].
    simpl. apply Hnoop. by apply Hdirect.
  - intros v payload Hunwrap Hdirect. rewrite Hunwrap. simpl.
    by apply Hnoop.
Qed.

End Properties.

(** ** The configuration, from the load of the module on *)

Section Configuration.
Context `{!Runtime}.
Variable toLowerCase : string → string.
Variable pino_knows : string → bool.
Variable pino_error : string → exception.

Implicit Types (env : gmap string string) (context : Context).


End Configuration.

(** ** Further properties of the handler on any runtime *)

Section Further.
Context `{!Runtime}.

Implicit Types (record : SQSRecord) (records : list SQSRecord).
Implicit Types (l : Logger) (env : gmap string string) (context : Context).
Implicit Types (fs : list SQSBatchItemFailure) (v : value number).

Lemma failure_of_filter_fails records :
  filter (λ record, fails record) records ≫= failure_of
  = records ≫= failure_of.
Proof.
  induction records as [|record records IH]; [done|].
  rewrite filter_cons, bind_cons. destruct (fails record) eqn:Hfails; simpl.
  - f_equal. apply IH.
  - rewrite IH. unfold failure_of at 2. by rewrite Hfails.
Qed.

Lemma failure_of_filter_succeeds records :
  filter (λ record, negb (fails record)) records ≫= failure_of = [].
Proof.
  induction records as [|record records IH]; [done|].
  rewrite filter_cons. destruct (fails record) eqn:Hfails; simpl; [done|].
  unfold failure_of at 1. rewrite Hfails. apply IH.
Qed.

Lemma failure_of_id_and_body records records' :
  id_and_body <$> records = id_and_body <$> records' →
  records ≫= failure_of = records' ≫= failure_of.
Proof.
  revert records'.
  induction records as [|record records IH]; intros [|record' records'] Heq;
    try done.
  rewrite !fmap_cons in Heq. injection Heq as Hid Hbody Heq.
  rewrite !bind_cons, (IH records' Heq).
  by rewrite (failure_of_id_body record record' Hid Hbody).
Qed.

Lemma failure_of_length records :
  length (records ≫= failure_of)
  = length (filter (λ record, fails record) records).
Proof.
  induction records as [|record records IH]; [done|].
  rewrite bind_cons, length_app, filter_cons, IH. unfold failure_of.
  by destruct (fails record).
Qed.

(** X1, the handler on a batch in two parts.  What it reports for the whole
    is what it reports for the first part followed by what it reports for
    the second, and so for what the loop logs: a batch may be split between
    invocations without changing any disposition. *)
Theorem handler_concatenation env context records records' :
  let run batch := handler env {| Records := batch |} context in
  ∃ fs fs',
    outcome (run records) = Return {| batchItemFailures := fs |} ∧
    outcome (run records') = Return {| batchItemFailures := fs' |} ∧
    outcome (run (records ++ records'))
      = Return {| batchItemFailures := fs ++ fs' |} ∧
    loop_entries (trace (run (records ++ records')))
      = loop_entries (trace (run records))
          ++ loop_entries (trace (run records')).
Proof.
  intros run. subst run. cbv beta.
  exists (records ≫= failure_of), (records' ≫= failure_of).
  rewrite !handler_outcome, !handler_loop_entries. simpl.
  by rewrite !bind_app.
Qed.

(** X2, redelivery makes no progress by itself.  When the messages the
    handler reported come back, in the same order, with the same identifiers and
    bodies but any metadata, environment and context, the handler reports
    all of them again: the report is the one it gave for the whole batch.
    The messages it did not report would all pass again. *)
Theorem failed_messages_fail_again env env' context context'
    records redelivered :
  id_and_body <$> redelivered
    = id_and_body <$> filter (λ record, fails record) records →
  ∃ response,
    outcome (handler env {| Records := records |} context)
      = Return response ∧
    outcome (handler env' {| Records := redelivered |} context')
      = Return response ∧
    failure_set response = messageId <$> redelivered ∧
    outcome
      (handler env'
         {| Records := filter (λ record, negb (fails record)) records |}
         context')
      = Return {| batchItemFailures := [] |}.
Proof.
  intros Heq. eexists. rewrite !handler_outcome. simpl.
  rewrite failure_of_filter_succeeds.
  rewrite (failure_of_id_and_body _ _ Heq), failure_of_filter_fails.
  split_and!; [done..| |done].
  rewrite failure_set_items.
  assert (messageId <$> redelivered
          = messageId <$> filter (λ record, fails record) records) as ->.
  { assert (∀ batch, messageId <$> batch = fst <$> (id_and_body <$> batch))
      as Hfst by (intros batch; by rewrite <-list_fmap_compose).
    by rewrite !Hfst, Heq. }
  done.
Qed.

(** X3, the order of a batch decides the order of the report and nothing
    else: the handler reports for a reordered batch the same identifiers,
    as often, reordered. *)
Theorem report_of_reordered_batch env context records records' :
  records ≡ₚ records' →
  ∃ response response',
    outcome (handler env {| Records := records |} context)
      = Return response ∧
    outcome (handler env {| Records := records' |} context)
      = Return response' ∧
    failure_set response ≡ₚ failure_set response'.
Proof.
  intros Hperm. eexists _, _. rewrite !handler_outcome. simpl.
  split_and!; [done..|].
  rewrite !failure_set_items. by rewrite Hperm.
Qed.

(** X4, the handler neither merges nor drops reports: an identifier is in
    the failure set as many times as the batch has failing records that carry
    it, also when records share an identifier, and the failure set is never
    longer than the batch. *)
Theorem failure_set_counts env event context :
  ∃ response,
    outcome (handler env event context) = Return response ∧
    (∀ id,
       length (filter (λ reported, reported = id) (failure_set response))
       = length (filter (λ record, messageId record = id)
                   (filter (λ record, fails record) (Records event)))) ∧
    length (batchItemFailures response) ≤ length (Records event).
Proof.
  eexists. split; [apply handler_outcome|]. split.
  - intros id. rewrite failure_set_items.
    generalize (filter (λ record, fails record) (Records event)).
    intros failed. induction failed as [|record failed IH]; [done|].
    rewrite fmap_cons, !filter_cons.
    destruct (decide (messageId record = id)); simpl; by rewrite IH.
  - simpl. rewrite failure_of_length. apply length_filter.
Qed.

(** X5, the two ends.  The failure set is empty exactly when no record of
    the batch fails, and it has as many items as the batch has records exactly
    when all of them fail. *)
Theorem empty_and_full_reports env event context :
  ∃ response,
    outcome (handler env event context) = Return response ∧
    (batchItemFailures response = [] ↔
     Forall (λ record, disposition record = Success) (Records event)) ∧
    (length (batchItemFailures response) = length (Records event) ↔
     Forall (λ record, fails record = true) (Records event)).
Proof.
  eexists. split; [apply handler_outcome|]. simpl.
  generalize (Records event). intros records. split.
  - induction records as [|record records IH]; [done|].
    rewrite bind_cons, Forall_cons, <-IH. unfold failure_of.
    rewrite fails_disposition. destruct (disposition record); simpl.
    + split; [by intros ?|by intros [_ ?]].
    + split; [done|]. by intros [? ?].
  - rewrite failure_of_length. split.
    + induction records as [|record records IH]; [done|].
      rewrite filter_cons. pose proof (length_filter (λ r, fails r) records).
      destruct (fails record) eqn:Hfails; simpl.
      * intros [=]. constructor; auto.
      * intros Hlen. lia.
    + intros Hall. induction Hall as [|record records Hrecord _ IH]; [done|].
      rewrite filter_cons, Hrecord. simpl. by rewrite IH.
Qed.

(** X6, the business logic by the shape of its payload.  It accepts arrays
    and objects and nothing else: [null], booleans, numbers and strings are
    rejected before anything is logged; an array passes whatever it holds;
    an object passes unless its own [shouldFail] is truthy. *)
Theorem processMessage_by_shape v l :
  processMessage v l =
  if is_structured v
  then
    (if truthy (shouldFail_of v)
     then Throw (Error "Message processing failed intentionally")
     else Return {| success := true |},
     [{| entry_level := LevelInfo; entry_bindings := bindings l;
         entry_fields := MessageFields v;
         entry_msg := "Processing business logic" |}])
  else (Throw (Error "Invalid message format"), []).
Proof.
  unfold processMessage.
  destruct v as [|[]|n|s|elements|properties]; simpl; try done.
  - by destruct (Number_ToBoolean n).
  - by destruct (String.eqb s "").
  - by destruct (truthy (properties !! "shouldFail")).
Qed.

(** X7, the envelope step by the shape of the parsed body.  Reading
    [Message] of [null] throws; booleans, numbers, strings and arrays pass unchanged,
    so an array of envelopes is not unwrapped; a non-empty string [Message]
    is parsed as it stands; and of an envelope nothing but [Message] is
    read: two objects with the same truthy [Message] unwrap alike, whatever
    their other fields. *)
Theorem unwrap_by_shape :
  unwrap JNull = Throw TypeError ∧
  (∀ v,
     match v with
     | JBool _ | JNumber _ | JString _ | JArray _ => unwrap v = Return v
     | JNull | JObject _ => True
     end) ∧
  (∀ properties s,
     properties !! "Message" = Some (JString s) → s ≠ "" →
     unwrap (JObject properties) = JSON_parse_text s) ∧
  (∀ properties properties',
     properties !! "Message" = properties' !! "Message" →
     truthy (properties !! "Message") = true →
     unwrap (JObject properties) = unwrap (JObject properties')).
Proof.
  split_and!.
  - done.
  - by intros [].
  - intros properties s Hget Hs. unfold unwrap. simpl. rewrite Hget. simpl.
    by apply String.eqb_neq in Hs as ->.
  - intros properties properties' Heq Htruthy. unfold unwrap. simpl.
    rewrite <-Heq. destruct (properties !! "Message") as [inner|]; [|done].
    simpl in Htruthy. by rewrite Htruthy.
Qed.

(** X8, an envelope whose [Message] is an object, not the text of one,
    always fails: the object is converted to a string, which throws or gives
    [[object Object]], and that is no JSON text.  The premise on the parser
    holds of every JSON parser. *)
Theorem object_Message_fails env event context record properties inner :
  is_throw (JSON_parse_text "[object Object]") = true →
  JSON_parse_text (body record) = Return (JObject properties) →
  properties !! "Message" = Some (JObject inner) →
  record ∈ Records event →
  ∃ response,
    outcome (handler env event context) = Return response ∧
    messageId record ∈ failure_set response.
Proof.
  intros Hreject Hparse Hget Hin. eexists. split; [apply handler_outcome|].
  apply elem_of_failure_set. exists record. split_and!; [done..|].
  rewrite fails_disposition. unfold disposition, unwrap, JSON_parse.
  rewrite Hparse. simpl. rewrite Hget. simpl.
  destruct (inner !! "toString"); simpl; [done|].
  by destruct (JSON_parse_text "[object Object]").
Qed.

Hint Rewrite @outcome_bind @outcome_try_catch @outcome_ret @outcome_lift
  @outcome_throw @outcome_info @outcome_error : outcome.
Hint Rewrite @trace_bind @trace_try_catch @trace_ret @trace_lift
  @trace_throw : trace.

Lemma error_entries_app (w w' : list (entry number)) :
  error_entries (w ++ w') = error_entries w ++ error_entries w'.
Proof. apply filter_app. Qed.

Lemma error_entries_processMessage v l :
  error_entries (trace (processMessage v l)) = [].
Proof.
  unfold processMessage.
  destruct (negb (ToBoolean v) || negb (String.eqb (typeof v) "object"));
    [done|].
  run_trace. destruct (Get v "shouldFail") as [flag|e]; [|done].
  by destruct (truthy flag).
Qed.

Lemma error_entries_iteration l record fs :
  entry_fields <$> error_entries (trace (iteration l record fs)) =
  match disposition record with
  | Failure cause => [ErrorFields (messageId record) cause]
  | Success => []
  end.
Proof.
  unfold iteration, process_record, disposition. run_trace.
  destruct (JSON_parse_text (body record)) as [parsedBody|e]; [|done].
  run_trace.
  destruct (unwrap parsedBody) as [payload|e]; [|done].
  run_trace. rewrite (processMessage_outcome payload l logger).
  rewrite !error_entries_app, error_entries_processMessage.
  by destruct (outcome (processMessage payload logger)).
Qed.

(** X9, at level [error] the handler logs one entry for each message it
    reports, with the identifier of the message and what was thrown, in the
    order of the batch, and nothing else. *)
Theorem error_entries_are_the_failures env event context :
  ∃ response,
    outcome (handler env event context) = Return response ∧
    entry_fields <$> error_entries (trace (handler env event context)) =
      omap error_fields (Records event) ∧
    length (error_entries (trace (handler env event context)))
      = length (batchItemFailures response).
Proof.
  eexists. split; [apply handler_outcome|]. simpl.
  assert (entry_fields
            <$> error_entries (trace (handler env event context)) =
          omap error_fields (Records event)) as Hentries.
  { assert (trace (handler env event context)
            = take 2 (trace (handler env event context))
                ++ loop_entries (trace (handler env event context))) as ->
      by (unfold loop_entries; by rewrite take_drop).
    rewrite error_entries_app, fmap_app, handler_loop_entries.
    assert (error_entries (take 2 (trace (handler env event context))) = [])
      as -> by (unfold handler; by run_trace).
    simpl. generalize (Records event). intros records.
    induction records as [|record records IH]; [done|].
    rewrite bind_cons, error_entries_app, fmap_app, error_entries_iteration.
    rewrite IH. unfold error_fields at 2. simpl.
    by destruct (disposition record). }
  split; [done|].
  rewrite <-(length_fmap entry_fields), Hentries. clear Hentries.
  generalize (Records event). intros records.
  induction records as [|record records IH]; [done|].
  rewrite bind_cons, length_app, <-IH. unfold failure_of, error_fields.
  rewrite fails_disposition. simpl. by destruct (disposition record).
Qed.

End Further.

(** ** Properties of the local test script and of the logger configuration *)

Section ScriptProperties.
Context `{!Runtime}.
Variable TEST_SCENARIOS : Script.ScenarioKey → Script.Scenario.
Variable JSON_stringify : SQSBatchResponse → string.

Implicit Types (env : gmap string string) (records : list SQSRecord).

Lemma for_each_console_log {A} (xs : list A) (line : A → string) env :
  Script.for_each xs (λ x, Script.console_log (line x)) env
  = (Return (), env, (λ x, Script.Out (line x)) <$> xs).
Proof.
  induction xs as [|x xs IH]; [done|].
  simpl. unfold mbind, Script.Script_bind. simpl. by rewrite IH.
Qed.

Lemma for_each_returns {A} (xs : list A) (body : A → Script.Script unit) env :
  (∀ x, (body x env).1 = (Return (), env)) →
  Script.for_each xs body env = (Return (), env, xs ≫= (λ x, (body x env).2)).
Proof.
  intros Hbody. induction xs as [|x xs IH]; [done|].
  simpl. unfold mbind, Script.Script_bind at 1.
  specialize (Hbody x). destruct (body x env) as [[r env'] w].
  simpl in Hbody. injection Hbody as -> ->. by rewrite IH.
Qed.

Lemma failure_of_failing records :
  records ≫= failure_of
  = (λ record, {| itemIdentifier := messageId record |})
      <$> filter (λ record, fails record) records.
Proof.
  induction records as [|record records IH]; [done|].
  rewrite bind_cons, filter_cons, IH. unfold failure_of at 1.
  by destruct (fails record).
Qed.

(** X10, [setupEnvironment] defines the five variables the handler reads,
    leaves every other variable as it was, prints nothing, and changes nothing
    when it is called again, as [runAllTests] does after the script has
    called it once. *)
Theorem setupEnvironment_sets_the_five env :
  ∃ env',
    Script.setupEnvironment env = (Return (), env', []) ∧
    (env' !! "QUEUE_URL"
       = Some "https://sqs.us-east-1.amazonaws.com/123456789012/test-queue" ∧
     env' !! "TOPIC_ARN"
       = Some "arn:aws:sns:us-east-1:123456789012:test-topic" ∧
     env' !! "DLQ_URL"
       = Some "https://sqs.us-east-1.amazonaws.com/123456789012/test-dlq" ∧
     env' !! "ENVIRONMENT" = Some "local" ∧
     env' !! "LOG_LEVEL" = Some "debug") ∧
    (∀ K,
       K ∉ ["QUEUE_URL"; "TOPIC_ARN"; "DLQ_URL"; "ENVIRONMENT"; "LOG_LEVEL"] →
       env' !! K = env !! K) ∧
    Script.setupEnvironment env' = (Return (), env', []).
Proof.
  eexists. split; [reflexivity|]. split_and!.
  - by simplify_map_eq.
  - by simplify_map_eq.
  - by simplify_map_eq.
  - by simplify_map_eq.
  - by simplify_map_eq.
  - intros K HK. repeat (apply not_elem_of_cons in HK as [? HK]).
    by simplify_map_eq.
  - unfold Script.setupEnvironment, Script.setenv, mbind, Script.Script_bind.
    simpl. do 2 f_equal. apply map_eq. intros K.
    destruct (decide (K ∈ ["QUEUE_URL"; "TOPIC_ARN"; "DLQ_URL";
                           "ENVIRONMENT"; "LOG_LEVEL"])) as [HK|HK].
    + repeat (apply elem_of_cons in HK as [->|HK]; [by simplify_map_eq|]).
      by apply elem_of_nil in HK.
    + repeat (apply not_elem_of_cons in HK as [? HK]). by simplify_map_eq.
Qed.

(** What [runTest] leaves on the terminal, in the terms of the records of
    its scenario that fail. *)
Lemma runTest_outputs now scenarioKey env :
  let failing :=
    filter (λ record, fails record)
      (Records (Script.event (TEST_SCENARIOS scenarioKey))) in
  Script.runTest TEST_SCENARIOS JSON_stringify now scenarioKey env
  = (Return (), env,
     [Script.Out (Script.newline +:+ Script.repeat "=" 60);
      Script.Out ("🧪 Testing: " +:+ Script.name (TEST_SCENARIOS scenarioKey));
      Script.Out (Script.repeat "=" 60 +:+ Script.newline)]
     ++ (Script.Logged
           <$> trace (handler env (Script.event (TEST_SCENARIOS scenarioKey))
                        (Script.createMockContext now)))
     ++ [Script.Out (Script.newline +:+ Script.repeat "─" 60);
         Script.Out "✅ Lambda execution completed";
         Script.Out (Script.repeat "─" 60);
         Script.Out (Script.newline +:+ "📊 Result:");
         Script.Out
           (JSON_stringify
              {| batchItemFailures :=
                   (λ record, {| itemIdentifier := messageId record |})
                     <$> failing |})]
     ++ match failing with
        | [] => [Script.Out (Script.newline +:+ "✨ All messages processed successfully!")]
        | _ :: _ =>
            Script.Out
              (Script.newline +:+ "⚠️  " +:+ pretty (length failing)
                 +:+ " message(s) failed:")
            :: ((λ record, Script.Out ("   - " +:+ messageId record))
                  <$> failing)
        end).
Proof.
  intros failing.
  destruct (handler env (Script.event (TEST_SCENARIOS scenarioKey))
              (Script.createMockContext now)) as [r w] eqn:Hrun.
  assert (r = Return {| batchItemFailures :=
                          (λ record, {| itemIdentifier := messageId record |})
                            <$> failing |}) as ->.
  { pose proof (handler_outcome env (Script.event (TEST_SCENARIOS scenarioKey))
                  (Script.createMockContext now)) as Houtcome.
    rewrite Hrun, failure_of_failing in Houtcome. exact Houtcome. }
  cbn [trace snd].
cbv beta iota zeta
  delta [Script.runTest Script.try_catch Script.call_handler mbind
             Script.Script_bind Script.console_log].
  rewrite Hrun. cbv beta iota zeta.
  destruct failing as [|record failing'].
  - simpl. by rewrite ?app_nil_r.
  - cbn [fmap list_fmap batchItemFailures length Nat.ltb Nat.leb].
    change (λ (failure : SQSBatchItemFailure) (env1 : gmap string string),
              (Return (), env1,
               [Script.Out ("   - " +:+ itemIdentifier failure)]))
      with (λ failure : SQSBatchItemFailure,
              Script.console_log ("   - " +:+ itemIdentifier failure)).
    rewrite (for_each_console_log _
               (λ failure, "   - " +:+ itemIdentifier failure)).
    simpl. rewrite ?app_nil_r, length_fmap.
    by rewrite <-list_fmap_compose.
Qed.

Lemma runTest_no_Err now scenarioKey env label error :
  Script.Err label error
    ∉ (Script.runTest TEST_SCENARIOS JSON_stringify now scenarioKey env).2.
Proof.
  rewrite runTest_outputs. cbn [snd]. intros Hin.
  assert (∀ texts : list string,
            Script.Err label error ∉ Script.Out <$> texts) as Hout
    by (by intros texts (? & ? & ?)%list_elem_of_fmap).
  apply elem_of_app in Hin as [Hin|Hin].
  { by apply (Hout [_; _; _]) in Hin. }
  apply elem_of_app in Hin as [Hin|Hin].
  { by apply list_elem_of_fmap in Hin as (? & ? & ?). }
  apply elem_of_app in Hin as [Hin|Hin].
  { by apply (Hout [_; _; _; _; _]) in Hin. }
  destruct (filter _ _) as [|record failing'].
  - by apply (Hout [_]) in Hin.
  - apply elem_of_cons in Hin as [?|Hin]; [done|].
    by apply list_elem_of_fmap in Hin as (? & ? & ?).
Qed.

Lemma runTest_returns now scenarioKey env :
  (Script.runTest TEST_SCENARIOS JSON_stringify now scenarioKey env).1
  = (Return (), env).
Proof. by rewrite runTest_outputs. Qed.

(** X11, [runTest] on any scenario.  The handler never throws, so the
    branch that prints the failure of the execution is never taken and nothing
    goes to [console.error].  The run leaves [process.env] as it was and
    prints, in this order: the heading with the name of the scenario, the
    entries of the handler, the completion and the report, and then either
    the line that all messages were processed, when no record of the
    scenario fails, or the number of the failing records and one line for
    each, with its identifier, in the order of the batch. *)
Theorem runTest_report now scenarioKey env :
  let scenario := TEST_SCENARIOS scenarioKey in
  let run :=
    handler env (Script.event scenario) (Script.createMockContext now) in
  let failing :=
    filter (λ record, fails record) (Records (Script.event scenario)) in
  ∃ response,
    outcome run = Return response ∧
    Script.runTest TEST_SCENARIOS JSON_stringify now scenarioKey env =
    (Return (), env,
     [Script.Out (Script.newline +:+ Script.repeat "=" 60);
      Script.Out ("🧪 Testing: " +:+ Script.name scenario);
      Script.Out (Script.repeat "=" 60 +:+ Script.newline)]
     ++ (Script.Logged <$> trace run)
     ++ [Script.Out (Script.newline +:+ Script.repeat "─" 60);
         Script.Out "✅ Lambda execution completed";
         Script.Out (Script.repeat "─" 60);
         Script.Out (Script.newline +:+ "📊 Result:");
         Script.Out (JSON_stringify response)]
     ++ match failing with
        | [] => [Script.Out (Script.newline +:+ "✨ All messages processed successfully!")]
        | _ :: _ =>
            Script.Out
              (Script.newline +:+ "⚠️  " +:+ pretty (length failing)
                 +:+ " message(s) failed:")
            :: ((λ record, Script.Out ("   - " +:+ messageId record))
                  <$> failing)
        end) ∧
    ∀ label error,
      Script.Err label error
        ∉ (Script.runTest TEST_SCENARIOS JSON_stringify now scenarioKey env).2.
Proof.
  intros scenario run failing. subst run scenario failing.
  eexists. split_and!.
  - by rewrite handler_outcome, failure_of_failing.
  - by rewrite runTest_outputs.
  - apply runTest_no_Err.
Qed.

(** X12, [runAllTests] sets the environment and then runs the five
    scenarios, each once, in the order of the table, each under the environment that
    [setupEnvironment] leaves; it returns normally, and nothing goes to
    [console.error]. *)
Theorem runAllTests_report now env :
  ∃ env',
    Script.setupEnvironment env = (Return (), env', []) ∧
    Script.runAllTests TEST_SCENARIOS JSON_stringify now env =
    (Return (), env',
     [Script.Out (Script.newline +:+ "🚀 Starting Local Lambda Tests");
      Script.Out (Script.repeat "=" 60)]
     ++ (Script.scenarios
           ≫= (λ scenarioKey,
                 (Script.runTest TEST_SCENARIOS JSON_stringify
                    (now scenarioKey) scenarioKey env').2))
     ++ [Script.Out (Script.newline +:+ Script.repeat "=" 60);
         Script.Out "🏁 All tests completed!";
         Script.Out (Script.repeat "=" 60 +:+ Script.newline)]) ∧
    ∀ label error,
      Script.Err label error
        ∉ (Script.runAllTests TEST_SCENARIOS JSON_stringify now env).2.
Proof.
  eexists. split; [reflexivity|].
  set (env' := <["LOG_LEVEL" := "debug"]> _).
  assert (Script.runAllTests TEST_SCENARIOS JSON_stringify now env =
    (Return (), env',
     [Script.Out (Script.newline +:+ "🚀 Starting Local Lambda Tests");
      Script.Out (Script.repeat "=" 60)]
     ++ (Script.scenarios
           ≫= (λ scenarioKey,
                 (Script.runTest TEST_SCENARIOS JSON_stringify
                    (now scenarioKey) scenarioKey env').2))
     ++ [Script.Out (Script.newline +:+ Script.repeat "=" 60);
         Script.Out "🏁 All tests completed!";
         Script.Out (Script.repeat "=" 60 +:+ Script.newline)])) as Hreport.
  { cbv beta iota zeta
      delta [Script.runAllTests mbind Script.Script_bind Script.console_log
             Script.setupEnvironment Script.setenv].
    fold env'.
    rewrite (for_each_returns Script.scenarios
               (λ scenario,
                  Script.runTest TEST_SCENARIOS JSON_stringify (now scenario)
                    scenario) env')
      by (intros scenarioKey; apply runTest_returns).
    reflexivity. }
  split; [done|].
  intros label error. rewrite Hreport. cbn [snd]. intros Hin.
  assert (∀ texts : list string,
            Script.Err label error ∉ Script.Out <$> texts) as Hout
    by (by intros texts (? & ? & ?)%list_elem_of_fmap).
  apply elem_of_app in Hin as [Hin|Hin].
  { by apply (Hout [_; _]) in Hin. }
  apply elem_of_app in Hin as [Hin|Hin].
  { apply list_elem_of_bind in Hin as (scenarioKey & Hin & _).
    by apply runTest_no_Err in Hin. }
  by apply (Hout [_; _; _]) in Hin.
Qed.

End ScriptProperties.

Section LoggerProperties.
Variable toLowerCase : string → string.

(** X13, the level of the logger is never empty: when [LOG_LEVEL] is
    absent, or is the empty string, it is [info]; and no other variable of the
    environment bears on it.  The premise holds of the engine's
    [toLowerCase]. *)
Theorem logLevel_defaults env :
  toLowerCase "" = "" →
  LoggerConfig.logLevel toLowerCase env ≠ "" ∧
  (env !! "LOG_LEVEL" = None ∨ env !! "LOG_LEVEL" = Some "" →
   LoggerConfig.logLevel toLowerCase env = "info") ∧
  (∀ K v,
     K ≠ "LOG_LEVEL" →
     LoggerConfig.logLevel toLowerCase (<[K := v]> env)
       = LoggerConfig.logLevel toLowerCase env ∧
     LoggerConfig.logLevel toLowerCase (delete K env)
       = LoggerConfig.logLevel toLowerCase env).
Proof.
  intros Hempty. unfold LoggerConfig.logLevel. split_and!.
  - destruct (env !! "LOG_LEVEL") as [level|]; [|done].
    simpl. destruct (String.eqb (toLowerCase level) "") eqn:Hlevel; [done|].
    by apply String.eqb_neq.
  - intros [->| ->]; [done|]. by rewrite Hempty.
  - intros K v HK. by rewrite lookup_insert_ne, lookup_delete_ne.
Qed.

End LoggerProperties.

(** ** The handler on the reference runtime *)

Import Reference Examples.

(** *** The scenarios of the repository's tests *)

Example scenario_simple_message :
  reported (handler environment {| Records := [simple] |} context) = Some [].
Proof. by vm_compute. Qed.

Example scenario_wrapped_message :
  reported (handler environment {| Records := [wrapped] |} context) = Some []
  ∧ parse (body wrapped) ≫= unwrap
    = Return (JObject {[ "test" := JString "hi" ]}).
Proof. by vm_compute. Qed.

Example scenario_batch :
  reported
    (handler environment {| Records := [success_1; simple; success_2] |}
       context)
  = Some [].
Proof. by vm_compute. Qed.

Example scenario_shouldFail :
  reported (handler environment {| Records := [failure] |} context)
  = Some ["message-fail"].
Proof. by vm_compute. Qed.

Example scenario_partial_batch_failure :
  reported
    (handler environment {| Records := [success_1; failure; success_2] |}
       context)
  = Some ["message-fail"].
Proof. by vm_compute. Qed.

Example scenario_invalid_JSON :
  reported (handler environment {| Records := [invalid] |} context)
  = Some ["test-invalid-json"].
Proof. by vm_compute. Qed.

Example scenario_missing_environment :
  reported (handler ∅ {| Records := [simple] |} context) = Some [].
Proof. by vm_compute. Qed.

(** The conversion to a string that [JSON.parse] applies to a [Message]
    that is not a string: an array holding the text of an object is
    unwrapped to that object, an object is not. *)
Example scenario_Message_not_a_string :
  ToString
    (JArray [JNumber {| mantissa := 25; exponent := -1 |}; JNull;
             JArray [JBool true; JString "x"];
             JNumber {| mantissa := 1; exponent := 21 |}])
    = Return "2.5,,true,x,1e+21"
  ∧ parse (json "{'Message':['{}']}") ≫= unwrap = Return (JObject ∅)
  ∧ parse (json "{'Message':{'test':'hi'}}") ≫= unwrap = Throw SyntaxError.
Proof. by vm_compute. Qed.

(** *** The claims at concrete batches *)

(** C1 at the batch of the partial-failure test: two messages that
    succeed around one flagged to fail. *)
Lemma failure_isolation_witness :
  fails failure = true ∧
  let run records := handler environment {| Records := records |} context in
  (∃ fs_before fs_after,
     outcome (run [success_1]) = Return {| batchItemFailures := fs_before |} ∧
     outcome (run [success_2]) = Return {| batchItemFailures := fs_after |} ∧
     outcome (run ([success_1] ++ failure :: [success_2])) =
       Return {| batchItemFailures :=
                   fs_before ++ {| itemIdentifier := messageId failure |}
                             :: fs_after |} ∧
     outcome (run ([success_1] ++ [success_2])) =
       Return {| batchItemFailures := fs_before ++ fs_after |}) ∧
  length (observed (trace (run ([success_1] ++ failure :: [success_2])))) =
    length ([success_1] ++ failure :: [success_2]) ∧
  delete (length [success_1])
    (observed (trace (run ([success_1] ++ failure :: [success_2])))) =
    observed (trace (run ([success_1] ++ [success_2]))) ∧
  loop_entries (trace (run ([success_1] ++ failure :: [success_2]))) =
    loop_entries (trace (run [success_1]))
      ++ loop_entries (trace (run [failure]))
      ++ loop_entries (trace (run [success_2])) ∧
  loop_entries (trace (run ([success_1] ++ [success_2]))) =
    loop_entries (trace (run [success_1]))
      ++ loop_entries (trace (run [success_2])).
Proof.
  split; [by vm_compute|].
  apply (failure_isolation environment context [success_1] failure
           [success_2]).
  by vm_compute.
Defined.

(** C2 at the same batch, whose three identifiers are distinct. *)
Lemma exactly_one_disposition_witness :
  NoDup (messageId <$> [success_1; failure; success_2]) ∧
  ∃ response,
    outcome
      (handler environment {| Records := [success_1; failure; success_2] |}
         context) = Return response ∧
    NoDup (failure_set response) ∧
    failure_set response
      ++ consumed [success_1; failure; success_2] response
      ≡ₚ messageId <$> [success_1; failure; success_2] ∧
    (∀ record, record ∈ [success_1; failure; success_2] →
       messageId record ∈ failure_set response ↔ fails record = true).
Proof.
  assert (NoDup (messageId <$> [success_1; failure; success_2])) as Hids.
  { apply (bool_decide_unpack _). by vm_compute. }
  split; [done|].
  apply (exactly_one_disposition environment
           {| Records := [success_1; failure; success_2] |} context Hids).
Defined.

(** C10 at two batches that differ in the receipt handle, the receive
    count, the message attributes and the region of their first record. *)
Lemma report_depends_on_id_and_body_witness :
  (λ record, (messageId record, body record)) <$> [simple; failure]
    = (λ record, (messageId record, body record)) <$> [redelivered; failure]
  ∧ receiptHandle simple ≠ receiptHandle redelivered
  ∧ outcome (handler environment {| Records := [simple; failure] |} context)
    = outcome
        (handler environment {| Records := [redelivered; failure] |} context).
Proof.
  split_and!; [by vm_compute|by vm_compute|].
  apply (report_depends_on_id_and_body environment context
           [simple; failure] [redelivered; failure]).
  by vm_compute.
Defined.

(** C4 as the specification states it fails on a body that is the number
    42: the body is valid JSON and no payload carries [shouldFail: true],
    yet the business logic rejects a payload that is not an object, and the
    message is reported. *)
Lemma valid_body_without_flag_fails :
  valid_JSON (body number_body) ∧
  ¬ set_to_fail number_body ∧
  outcome (handler environment {| Records := [number_body] |} context) =
  Return {| batchItemFailures := [{| itemIdentifier := "message-number" |}] |}.
Proof.
  split_and!.
  - eexists. by lazy.
  - intros (parsedBody & payload & Hparse & Hunwrap & Hflag).
    vm_compute in Hparse. injection Hparse as <-.
    vm_compute in Hunwrap. injection Hunwrap as <-.
    vm_compute in Hflag. discriminate.
  - by vm_compute.
Qed.

(** Three more valid bodies without [shouldFail: true] that are reported:
    [null], on which reading [Message] throws; an envelope whose [Message]
    is not the text of a JSON value; a payload whose [shouldFail] is the
    number 1, which is truthy.  The fourth body, an array, passes as an
    object without a [shouldFail] of its own. *)
Example other_valid_bodies_fail :
  reported
    (handler environment
       {| Records := [record "m-1" "r-1" "null";
                      record "m-2" "r-2" (json "{'Message':'hello'}");
                      record "m-3" "r-3" (json "{'shouldFail':1}");
                      record "m-4" "r-4" (json "[{'shouldFail':true}]")] |}
       context)
  = Some ["m-1"; "m-2"; "m-3"].
Proof. by vm_compute. Qed.

(** C4 as amended, at a batch of an enveloped and a direct payload. *)
Lemma no_failure_on_structured_payloads_witness :
  Forall
    (λ record,
       ∃ parsedBody payload flag,
         JSON_parse_text (body record) = Return parsedBody ∧
         unwrap parsedBody = Return payload ∧
         ToBoolean payload = true ∧
         typeof payload = "object" ∧
         Get payload "shouldFail" = Return flag ∧
         truthy flag = false)
    [enveloped; success_1] ∧
  outcome (handler environment {| Records := [enveloped; success_1] |} context)
  = Return {| batchItemFailures := [] |}.
Proof.
  assert (Forall
            (λ record,
               ∃ parsedBody payload flag,
                 JSON_parse_text (body record) = Return parsedBody ∧
                 unwrap parsedBody = Return payload ∧
                 ToBoolean payload = true ∧
                 typeof payload = "object" ∧
                 Get payload "shouldFail" = Return flag ∧
                 truthy flag = false)
            [enveloped; success_1]) as Hall.
  { repeat apply Forall_cons_2; [| |apply Forall_nil_2].
    - exists (JObject {[ "Message" := JString (json "{'test':'hi'}") ]}),
        (JObject {[ "test" := JString "hi" ]}), None.
      split_and!; by vm_compute.
    - exists
        (JObject {[ "id" := JNumber {| mantissa := 1; exponent := 0 |};
                    "data" := JString "Success" ]}),
        (JObject {[ "id" := JNumber {| mantissa := 1; exponent := 0 |};
                    "data" := JString "Success" ]}), None.
      split_and!; by vm_compute. }
  split; [done|].
  apply (no_failure_on_structured_payloads environment
           {| Records := [enveloped; success_1] |} context Hall).
Defined.

(** C6 as the specification states it fails on the body [empty_Message],
    an object whose only field [Message] is the empty string: the parsed
    body is an object with a field named [Message], whose value does not
    parse as JSON; yet the value, being falsy, is not parsed, the body
    itself is passed to the business logic, and the message is not
    reported. *)
Lemma falsy_Message_is_not_parsed :
  JSON_parse_text (body empty_Message) =
    Return (JObject {[ "Message" := JString "" ]}) ∧
  JSON_parse (JString "") = Throw SyntaxError ∧
  trace (handler environment {| Records := [empty_Message] |} context) !! 4 =
    Some {| entry_level := LevelInfo;
            entry_bindings := bindings (request_logger context);
            entry_fields := MessageFields (JObject {[ "Message" := JString "" ]});
            entry_msg := "Processing business logic" |} ∧
  outcome (handler environment {| Records := [empty_Message] |} context) =
    Return {| batchItemFailures := [] |}.
Proof. split_and!; by vm_compute. Qed.

(** C6 as amended, at a record whose [Message] holds the text of an
    object. *)
Lemma envelope_unwrapping_witness :
  JSON_parse_text (body enveloped) =
    Return (JObject {[ "Message" := JString (json "{'test':'hi'}") ]}) ∧
  process_record logger enveloped =
  (info logger (MessageIdFields (messageId enveloped)) "Processing message";;
   info logger (MessageFields (JObject {[ "test" := JString "hi" ]}))
     "Parsed message";;
   processMessage (JObject {[ "test" := JString "hi" ]}) logger;;
   info logger (MessageIdFields (messageId enveloped))
     "Successfully processed message").
Proof.
  assert (JSON_parse_text (body enveloped) =
            Return (JObject {[ "Message" := JString (json "{'test':'hi'}") ]}))
    as Hparse by (by vm_compute).
  split; [done|].
  destruct (envelope_unwrapping logger enveloped _ Hparse) as [Hinner _].
  apply (Hinner (JString (json "{'test':'hi'}"))); by vm_compute.
Defined.

(** C7 as the specification states it fails on a body wrapped twice, an
    envelope whose [Message] is the text of an envelope of the empty
    object: unwrapping it once leaves an object that carries a [Message],
    and unwrapping that gives the empty object. *)
Lemma unwrap_twice_differs :
  JSON_parse_text (json "{'Message':'{\'Message\':\'{}\'}'}") =
    Return twice_wrapped ∧
  unwrap twice_wrapped = Return (JObject {[ "Message" := JString "{}" ]}) ∧
  unwrap twice_wrapped ≫= unwrap = Return (JObject ∅) ∧
  unwrap twice_wrapped ≫= unwrap ≠ unwrap twice_wrapped.
Proof.
  split_and!; [by vm_compute..|].
  intros Heq. vm_compute in Heq. discriminate.
Qed.

(** C7 as amended, at an envelope of a direct payload. *)
Lemma unwrap_idempotent_on_direct_payloads_witness :
  is_direct (JObject {[ "test" := JString "hi" ]}) = true ∧
  unwrap (JObject {[ "test" := JString "hi" ]})
    = Return (JObject {[ "test" := JString "hi" ]}) ∧
  unwrap (JObject {[ "Message" := JString (json "{'test':'hi'}") ]})
    = Return (JObject {[ "test" := JString "hi" ]}) ∧
  unwrap (JObject {[ "Message" := JString (json "{'test':'hi'}") ]})
    ≫= unwrap
  = Return (JObject {[ "test" := JString "hi" ]}).
Proof.
  destruct unwrap_idempotent_on_direct_payloads as (Hnoop & _ & Htwice & _).
  assert (is_direct (JObject {[ "test" := JString "hi" ]}) = true)
    as Hdirect by (by vm_compute).
  assert (unwrap (JObject {[ "Message" := JString (json "{'test':'hi'}") ]})
          = Return (JObject {[ "test" := JString "hi" ]})) as Hunwrap
    by (by vm_compute).
  split_and!; [done|by apply Hnoop|done|by apply Htwice].
Defined.

(** Why [null] is set apart: an envelope of the text [null] unwraps to
    [null], and unwrapping that throws. *)
Example unwrap_to_null_then_throws :
  JSON_parse_text (json "{'Message':'null'}") =
    Return (JObject {[ "Message" := JString "null" ]}) ∧
  unwrap (JObject {[ "Message" := JString "null" ]}) = Return JNull ∧
  is_direct (JNull : value number) = false ∧
  unwrap (JObject {[ "Message" := JString "null" ]}) ≫= unwrap
    = Throw TypeError.
Proof. split_and!; by vm_compute. Qed.



(** *** The further properties at concrete batches *)

(** Redelivery, at the batch of the partial-failure test with the record
    of invalid JSON added: the two failing records come back with other
    receipt handles, under another environment and context. *)
Lemma failed_messages_fail_again_witness :
  id_and_body
    <$> [record "message-fail" "receipt-8" (body failure);
         record "test-invalid-json" "receipt-9" (body invalid)]
    = id_and_body
        <$> filter (λ record, fails record)
              [success_1; failure; success_2; invalid] ∧
  ∃ response,
    outcome
      (handler environment
         {| Records := [success_1; failure; success_2; invalid] |} context)
      = Return response ∧
    outcome
      (handler ∅
         {| Records :=
              [record "message-fail" "receipt-8" (body failure);
               record "test-invalid-json" "receipt-9" (body invalid)] |}
         (Script.createMockContext 1700000000000))
      = Return response ∧
    failure_set response = ["message-fail"; "test-invalid-json"].
Proof.
  assert (id_and_body
            <$> [record "message-fail" "receipt-8" (body failure);
                 record "test-invalid-json" "receipt-9" (body invalid)]
          = id_and_body
              <$> filter (λ record, fails record)
                    [success_1; failure; success_2; invalid]) as Heq
    by (by vm_compute).
  split; [done|].
  destruct (failed_messages_fail_again environment ∅ context
              (Script.createMockContext 1700000000000)
              [success_1; failure; success_2; invalid] _ Heq)
    as (response & Hfirst & Hagain & Hset & _).
  exists response. by rewrite Hset.
Defined.

(** Reordering, at a batch whose last two records change places. *)
Lemma report_of_reordered_batch_witness :
  [success_1; failure; invalid] ≡ₚ [success_1; invalid; failure] ∧
  ∃ response response',
    outcome
      (handler environment {| Records := [success_1; failure; invalid] |}
         context) = Return response ∧
    outcome
      (handler environment {| Records := [success_1; invalid; failure] |}
         context) = Return response' ∧
    failure_set response ≡ₚ failure_set response'.
Proof.
  assert ([success_1; failure; invalid] ≡ₚ [success_1; invalid; failure])
    as Hperm by apply perm_skip, perm_swap.
  split; [done|].
  apply (report_of_reordered_batch environment context _ _ Hperm).
Defined.

(** An object as [Message], on the reference runtime. *)
Lemma object_Message_fails_witness :
  is_throw (JSON_parse_text "[object Object]") = true ∧
  ∃ response,
    outcome (handler environment {| Records := [simple; object_Message] |}
               context) = Return response ∧
    messageId object_Message ∈ failure_set response.
Proof.
  split; [by vm_compute|].
  apply (object_Message_fails environment
           {| Records := [simple; object_Message] |} context object_Message
           {[ "Message" := JObject {[ "test" := JString "hi" ]} ]}
           {[ "test" := JString "hi" ]}).
  - by vm_compute.
  - by vm_compute.
  - by vm_compute.
  - apply list_elem_of_further, list_elem_of_here.
Defined.

(** The level of the logger under ASCII lower-casing, at an environment
    whose [LOG_LEVEL] is empty. *)
Lemma logLevel_defaults_witness :
  ascii_lower "" = "" ∧
  LoggerConfig.logLevel ascii_lower {[ "LOG_LEVEL" := "" ]} = "info" ∧
  LoggerConfig.logLevel ascii_lower {[ "LOG_LEVEL" := "DEBUG" ]} = "debug".
Proof.
  split; [done|].
  destruct (logLevel_defaults ascii_lower {[ "LOG_LEVEL" := "" ]} eq_refl)
    as (_ & Hdefault & _).
  split; [|by vm_compute]. apply Hdefault. right. by vm_compute.
Defined.
